(** * AntigravityMobile: the CDP client (cdp-client module)

    A shallow embedding of the remote-control client: target selection,
    the session channel with its request/response correlation, the command
    facade with its try/finally discipline, the in-page chat classifier and
    the workspace locator.

    Conventions.
    - A JavaScript string is the list of its UTF-16 code units ([list N]).
    - A JavaScript value is a [json] tree; numbers are the integral doubles
      in the safe range, kept as [Z].
    - Asynchronous code is written in a small monad [M] over a [World] that
      holds the session, the messages the socket will still deliver and the
      trace of transport events; [Stuck] is an [await] that never returns. *)

From Stdlib Require Import ZArith NArith List Bool Lia String Ascii.
From stdpp Require Import base option list gmap pretty.
Import ListNotations.

Local Open Scope nat_scope.
Set Warnings "-register-all".

(** ** JavaScript strings *)

Module JsString.

(** An ASCII literal as a list of code units. *)
Definition lit (s : string) : list N :=
  map N_of_ascii (list_ascii_of_string s).

(** WhiteSpace and LineTerminator code units: what [trim] strips and what
    the regular-expression class [\s] matches. *)
Definition is_space (c : N) : bool :=
  ((9 <=? c) && (c <=? 13) || (c =? 32) || (c =? 160) || (c =? 5760)
   || (8192 <=? c) && (c <=? 8202) || (c =? 8232) || (c =? 8233)
   || (c =? 8239) || (c =? 8287) || (c =? 12288) || (c =? 65279))%N.

(** The regular-expression class [\d]. *)
Definition is_digit (c : N) : bool := ((48 <=? c) && (c <=? 57))%N.

(** What the regular-expression dot refuses (no [s] flag). *)
Definition is_line_terminator (c : N) : bool :=
  ((c =? 10) || (c =? 13) || (c =? 8232) || (c =? 8233))%N.

Definition is_upper_ascii (c : N) : bool := ((65 <=? c) && (c <=? 90))%N.
Definition is_lower_ascii (c : N) : bool := ((97 <=? c) && (c <=? 122))%N.

(** [ch >= 'A' && ch <= 'Z' || ch >= 'a' && ch <= 'z'] on one-unit strings. *)
Definition is_ascii_letter (c : N) : bool :=
  is_upper_ascii c || is_lower_ascii c.

(** Case folding of a regular expression with the [i] flag and without the
    [u] flag, for a pattern made of ASCII characters: a code unit of 128 or
    more never canonicalizes to an ASCII one, so only a..z fold. *)
Definition fold_case (c : N) : N :=
  if is_lower_ascii c then (c - 32)%N else c.

Definition eq_cs (a b : N) : bool := (a =? b)%N.
Definition eq_ci (a b : N) : bool := (fold_case a =? fold_case b)%N.

(** [toLowerCase] / [toUpperCase] per code unit: exact on U+0000..U+00FF;
    above that range the host's Unicode tables are not reproduced and the
    unit is left as it is. What is proved of a comparison of lower-cased
    strings is therefore stated for strings of that range ([latin1]); the
    search for "user" and "human" in a lower-cased class name does not
    depend on it, since no unit above U+00FF becomes one of these letters
    in lower case. *)
Definition lower_unit (c : N) : N :=
  if is_upper_ascii c then (c + 32)%N
  else if ((192 <=? c) && (c <=? 222) && negb (c =? 215))%N then (c + 32)%N
  else c.

Definition upper_unit (c : N) : list N :=
  if is_lower_ascii c then [(c - 32)%N]
  else if (c =? 223)%N then [83; 83]%N
  else if (c =? 181)%N then [924]%N
  else if (c =? 255)%N then [376]%N
  else if ((224 <=? c) && (c <=? 254) && negb (c =? 247))%N then [(c - 32)%N]
  else [c].

Definition toLowerCase (s : list N) : list N := map lower_unit s.
Definition toUpperCase (s : list N) : list N := concat (map upper_unit s).

(** [p] matches at the start of [s], units compared with [eqc]. *)
Fixpoint starts_with (eqc : N -> N -> bool) (p s : list N) : bool :=
  match p, s with
  | [], _ => true
  | _ :: _, [] => false
  | a :: p', b :: s' => eqc a b && starts_with eqc p' s'
  end.

(** [s.indexOf(p)], counting from [k]. *)
Fixpoint index_from (eqc : N -> N -> bool) (p s : list N) (k : nat)
  : option nat :=
  if starts_with eqc p s then Some k
  else match s with
       | [] => None
       | _ :: s' => index_from eqc p s' (S k)
       end.

Definition indexOf (s p : list N) : option nat := index_from eq_cs p s 0.

(** [s.includes(p)]. *)
Definition includes (s p : list N) : bool :=
  match indexOf s p with Some _ => true | None => false end.

(** An unanchored case-insensitive literal pattern, [/p/i.test(s)]. *)
Definition includes_ci (s p : list N) : bool :=
  match index_from eq_ci p s 0 with Some _ => true | None => false end.

Fixpoint trimStart (s : list N) : list N :=
  match s with
  | [] => []
  | c :: s' => if is_space c then trimStart s' else s
  end.

Definition trimEnd (s : list N) : list N := rev (trimStart (rev s)).

Definition trim (s : list N) : list N := trimEnd (trimStart s).

(** [s.substring(a, b)] for [a <= b]. *)
Definition substring (a b : nat) (s : list N) : list N :=
  take (b - a) (drop a s).

(** [s.split(sep)] for a one-unit separator. *)
Fixpoint split_unit (sep : N) (s : list N) : list (list N) :=
  match s with
  | [] => [[]]
  | c :: s' =>
      if (c =? sep)%N then [] :: split_unit sep s'
      else match split_unit sep s' with
           | piece :: rest => (c :: piece) :: rest
           | [] => [[c]]
           end
  end.

(** [s.split(/[class]+/)]: the pieces between maximal runs of units of the
    class; [in_run] tells that the previous unit belonged to a run. *)
Fixpoint split_runs (cls : N -> bool) (in_run : bool) (s : list N)
  : list (list N) :=
  match s with
  | [] => [[]]
  | c :: s' =>
      if cls c then
        (if in_run then split_runs cls true s'
         else [] :: split_runs cls true s')
      else match split_runs cls false s' with
           | piece :: rest => (c :: piece) :: rest
           | [] => [[c]]
           end
  end.

(** [parts.join(sep)]. *)
Fixpoint join (sep : list N) (parts : list (list N)) : list N :=
  match parts with
  | [] => []
  | [p] => p
  | p :: rest => p ++ sep ++ join sep rest
  end.

Definition is_empty (s : list N) : bool :=
  match s with [] => true | _ => false end.

End JsString.

Import JsString.

(** ** JavaScript values *)

Inductive json : Type :=
| JUndefined
| JNull
| JBool (b : bool)
| JNum (n : Z)
| JNaN
| JStr (s : list N)
| JArr (items : list json)
| JObj (fields : list (list N * json)).

(** ToBoolean. *)
Definition truthy (v : json) : bool :=
  match v with
  | JUndefined | JNull | JNaN => false
  | JBool b => b
  | JNum n => negb (n =? 0)%Z
  | JStr s => negb (is_empty s)
  | JArr _ | JObj _ => true
  end.

(** [a || b]. *)
Definition js_or (a b : json) : json := if truthy a then a else b.

Definition nullish (v : json) : bool :=
  match v with JUndefined | JNull => true | _ => false end.

Fixpoint assoc (k : list N) (fields : list (list N * json)) : json :=
  match fields with
  | [] => JUndefined
  | (k', v) :: rest => if decide (k = k') then v else assoc k rest
  end.

(** [v.k] on a value that is neither null nor undefined; the properties read
    by this module are not own properties of strings, numbers or arrays. *)
Definition prop (v : json) (k : string) : json :=
  match v with
  | JObj fields => assoc (lit k) fields
  | _ => JUndefined
  end.

(** [v?.k]. *)
Definition opt_prop (v : json) (k : string) : json :=
  if nullish v then JUndefined else prop v k.

(** ToString on these values. *)
Fixpoint to_string (v : json) : list N :=
  match v with
  | JUndefined => lit "undefined"
  | JNull => lit "null"
  | JBool true => lit "true"
  | JBool false => lit "false"
  | JNum n => lit (pretty n)
  | JNaN => lit "NaN"
  | JStr s => s
  | JArr items =>
      join (lit ",")
        (map (fun x => if nullish x then [] else to_string x) items)
  | JObj _ => lit "[object Object]"
  end.

(** Exceptions: the constructor name and the [message] property. *)
Inductive exn : Type :=
| JsError (name : string) (message : list N).

Definition exn_message (e : exn) : list N :=
  match e with JsError _ m => m end.

(** [new Error(v)]. *)
Definition new_Error (v : json) : exn :=
  JsError "Error" (match v with JUndefined => [] | _ => to_string v end).

(** The TypeError of reading property [k] of null or undefined. *)
Definition cannot_read (v : json) (k : string) : exn :=
  JsError "TypeError"
    (lit "Cannot read properties of " ++ to_string v ++ lit " (reading '"
       ++ lit k ++ lit "')").

(** ** The session channel ([connectToTarget])

    [messageId] and [pending] are the two variables the closures of a
    connection share.  A promise made by [send] is named by its index in
    [promises]; the pair [{ resolve, reject }] stored under a request
    identifier is that index. *)

Inductive outcome : Type :=
| Fulfilled (v : json)
| Rejected (e : exn).

Inductive promise_state : Type :=
| PPending
| Settled (o : outcome).

Record Session : Type := mkSession {
  messageId : Z;
  pending : gmap Z nat;
  promises : list promise_state;
  ws_open : bool
}.

(** State on the ['open'] event. *)
Definition new_session : Session :=
  {| messageId := 1; pending := ∅; promises := []; ws_open := true |}.

(** [messageId++] on a double holding an integer between 0 and 2^53: the
    successor of 2^53 is not representable and rounds back to 2^53. *)
Definition js_incr (n : Z) : Z :=
  if (n <? 2 ^ 53)%Z then (n + 1)%Z else n.

(** The envelope [{ id, method, params }] handed to [JSON.stringify] and
    [ws.send]. The object is kept as it is built: a property that holds
    [undefined], which the serialisation leaves out, reads as [undefined]
    through [prop] in both forms, and the statements below read envelopes
    through [prop]. *)
Definition frame (id : Z) (method : string) (params : json) : json :=
  JObj [(lit "id", JNum id); (lit "method", JStr (lit method));
        (lit "params", params)].

(** [client.send(method, params = {})]: the new promise, the frame, and the
    session afterwards. *)
Definition send (method : string) (params : json) (s : Session)
  : nat * json * Session :=
  let params := match params with JUndefined => JObj [] | p => p end in
  let id := messageId s in
  let h := length (promises s) in
  (h, frame id method params,
   {| messageId := js_incr id;
      pending := <[id := h]> (pending s);
      promises := promises s ++ [PPending];
      ws_open := ws_open s |}).

(** [resolve(v)] / [reject(e)] on promise [h]: a settled promise stays as it
    is. *)
Definition settle (h : nat) (o : outcome) (ps : list promise_state)
  : list promise_state :=
  match ps !! h with
  | Some PPending => <[h := Settled o]> ps
  | _ => ps
  end.

(** [pending.has(v)] / [pending.get(v)]: the keys are numbers. *)
Definition pending_get (p : gmap Z nat) (v : json) : option nat :=
  match v with
  | JNum n => p !! n
  | _ => None
  end.

Definition pending_delete (p : gmap Z nat) (v : json) : gmap Z nat :=
  match v with
  | JNum n => delete n p
  | _ => p
  end.

(** What a response settles its request with. *)
Definition response_outcome (msg : json) : outcome :=
  if truthy (prop msg "error")
  then Rejected (new_Error (prop (prop msg "error") "message"))
  else Fulfilled (prop msg "result").

(** A message on which the ['message'] handler throws: [msg.id] on a
    message that parses to [null] is a TypeError, which nothing catches. *)
Definition handler_throws (msg : json) : bool := nullish msg.

(** What the ['message'] handler does to the session, on the parsed
    message.  (On a message on which it throws, the session is left as it
    was, which is what the equation below gives; that nothing is handled
    afterwards is said by [deliver] and [await].) *)
Definition on_message (msg : json) (s : Session) : Session :=
  let id := prop msg "id" in
  if truthy id then
    match pending_get (pending s) id with
    | Some h =>
        {| messageId := messageId s;
           pending := pending_delete (pending s) id;
           promises := settle h (response_outcome msg) (promises s);
           ws_open := ws_open s |}
    | None => s
    end
  else s.

(** [client.close()], that is [ws.close()]: nothing else is touched and no
    ['close'] handler is installed. *)
Definition close (s : Session) : Session :=
  {| messageId := messageId s;
     pending := pending s;
     promises := promises s;
     ws_open := false |}.

(** The sessions a connection can be in. *)
Inductive reachable : Session -> Prop :=
| reach_open : reachable new_session
| reach_send method params s :
    reachable s -> reachable (send method params s).2
| reach_message msg s :
    reachable s -> reachable (on_message msg s)
| reach_close s :
    reachable s -> reachable (close s).

(** Run a list of incoming messages through the handler, up to the first
    one on which it throws: the exception is not caught and no later message
    is handled. *)
Fixpoint deliver (msgs : list json) (s : Session) : Session :=
  match msgs with
  | [] => s
  | msg :: rest =>
      if handler_throws msg then s else deliver rest (on_message msg s)
  end.

(** The invariant of the correlation table. *)
Record session_inv (s : Session) : Prop := {
  inv_counter : (1 <= messageId s <= 2 ^ 53)%Z;
  inv_keys : forall id h, pending s !! id = Some h -> (1 <= id)%Z;
  inv_waiting : forall id h,
    pending s !! id = Some h -> promises s !! h = Some PPending;
  inv_distinct : forall id1 id2 h,
    pending s !! id1 = Some h -> pending s !! id2 = Some h -> id1 = id2
}.

(** ** Targets and their selection ([findEditorTarget]) *)

Record Target : Type := mkTarget {
  target_id : list N;
  type_ : list N;
  title : list N;
  url : list N;
  webSocketDebuggerUrl : option (list N)
}.

Definition is_page (t : Target) : bool :=
  bool_decide (type_ t = lit "page").

(** The predicate of the first [targets.find]: the main editor window, not
    the launchpad, not devtools. *)
Definition is_editor (t : Target) : bool :=
  is_page t
  && includes (title t) (lit "Antigravity")
  && negb (includes (title t) (lit "Launchpad"))
  && negb (includes (url t) (lit "devtools")).

(** [editor || targets.find(t => t.type === 'page')]. *)
Definition selectEditorTarget (targets : list Target) : option Target :=
  match List.find is_editor targets with
  | Some editor => Some editor
  | None => List.find is_page targets
  end.

(** ** The world of a command *)

Inductive event : Type :=
| EvFetch (path : string)
| EvOpen (wsUrl : list N)
| EvSend (envelope : json)
| EvDelay (ms : nat)
| EvClose.

(** What a connection attempt comes to: ['open'], ['error'] (or a failed
    import), or neither. *)
Inductive connect_outcome : Type :=
| ConnOpen
| ConnError (e : exn)
| ConnSilent.

(** What the controlled process answers on its discovery endpoint and on a
    connection attempt. *)
Record Env : Type := mkEnv {
  list_reply : exn + list Target;
  version_reply : exn + json;
  connect_reply : connect_outcome
}.

Record World : Type := mkWorld {
  env : Env;
  session : Session;
  inbox : list json;
  trace : list event
}.

Definition initial (e : Env) (incoming : list json) : World :=
  {| env := e; session := close new_session; inbox := incoming; trace := [] |}.

(** How an asynchronous function ends: it returns, it throws, or it awaits
    a promise that is never settled. *)
Inductive completion (A : Type) : Type :=
| Normal (a : A)
| Throw (e : exn)
| Stuck.

Arguments Normal {A} a.
Arguments Throw {A} e.
Arguments Stuck {A}.

Definition M (A : Type) : Type := World -> completion A * World.

#[global] Instance M_ret : MRet M := fun A a w => (Normal a, w).

#[global] Instance M_bind : MBind M := fun A B k m w =>
  match m w with
  | (Normal a, w1) => k a w1
  | (Throw e, w1) => (Throw e, w1)
  | (Stuck, w1) => (Stuck, w1)
  end.

Definition throw {A : Type} (e : exn) : M A := fun w => (Throw e, w).

(** [try { body } finally { fin }]. *)
Definition try_finally {A : Type} (body : M A) (fin : M unit) : M A :=
  fun w =>
    match body w with
    | (Stuck, w1) => (Stuck, w1)
    | (r, w1) =>
        match fin w1 with
        | (Normal _, w2) => (r, w2)
        | (Throw e, w2) => (Throw e, w2)
        | (Stuck, w2) => (Stuck, w2)
        end
    end.

(** [try { body } catch (e) { handler }]. *)
Definition try_catch {A : Type} (body : M A) (handler : exn -> M A) : M A :=
  fun w =>
    match body w with
    | (Throw e, w1) => handler e w1
    | other => other
    end.

Definition emit (ev : event) : M unit := fun w =>
  (Normal tt,
   {| env := env w; session := session w; inbox := inbox w;
      trace := trace w ++ [ev] |}).

(** [await new Promise(r => setTimeout(r, ms))]. *)
Definition delay (ms : nat) : M unit := emit (EvDelay ms).

(** [v.k], which throws on null and undefined. *)
Definition get_prop (v : json) (k : string) : M json :=
  if nullish v then throw (cannot_read v k) else mret (prop v k).

Definition getTargets : M (list Target) := fun w =>
  let w1 := {| env := env w; session := session w; inbox := inbox w;
               trace := trace w ++ [EvFetch "/json/list"] |} in
  match list_reply (env w) with
  | inl e => (Throw e, w1)
  | inr targets => (Normal targets, w1)
  end.

Definition getVersion : M json := fun w =>
  let w1 := {| env := env w; session := session w; inbox := inbox w;
               trace := trace w ++ [EvFetch "/json/version"] |} in
  match version_reply (env w) with
  | inl e => (Throw e, w1)
  | inr version => (Normal version, w1)
  end.

Definition findEditorTarget : M (option Target) :=
  targets ← getTargets; mret (selectEditorTarget targets).

(** [connectToTarget]: the client it resolves to is the session of the
    world. *)
Definition connectToTarget (target : Target) : M unit := fun w =>
  match webSocketDebuggerUrl target with
  | None | Some [] =>
      (Throw (new_Error (JStr (lit "No WebSocket URL for target"))), w)
  | Some wsUrl =>
      match connect_reply (env w) with
      | ConnOpen =>
          (Normal tt,
           {| env := env w; session := new_session; inbox := inbox w;
              trace := trace w ++ [EvOpen wsUrl] |})
      | ConnError e => (Throw e, w)
      | ConnSilent => (Stuck, w)
      end
  end.

(** Handle incoming messages until promise [h] is settled.  When the
    handler throws on a message, nothing is handled after it and the promise
    stays as it is. *)
Fixpoint await (h : nat) (s : Session) (incoming : list json)
  : option outcome * Session * list json :=
  match promises s !! h with
  | Some (Settled o) => (Some o, s, incoming)
  | _ =>
      match incoming with
      | [] => (None, s, [])
      | msg :: rest =>
          if handler_throws msg then (None, s, [])
          else await h (on_message msg s) rest
      end
  end.

(** [await client.send(method, params)]. *)
Definition client_send (method : string) (params : json) : M json := fun w =>
  let '(h, envelope, s1) := send method params (session w) in
  let '(o, s2, rest) := await h s1 (inbox w) in
  let w1 := {| env := env w; session := s2; inbox := rest;
               trace := trace w ++ [EvSend envelope] |} in
  match o with
  | Some (Fulfilled v) => (Normal v, w1)
  | Some (Rejected e) => (Throw e, w1)
  | None => (Stuck, w1)
  end.

(** [client.close()]. *)
Definition client_close : M unit := fun w =>
  (Normal tt,
   {| env := env w; session := close (session w); inbox := inbox w;
      trace := trace w ++ [EvClose] |}).

(** ** The command facade *)

Definition str (s : string) : json := JStr (lit s).

Definition obj (fields : list (string * json)) : json :=
  JObj (map (fun kv => (lit kv.1, kv.2)) fields).

Definition no_editor_target : exn :=
  new_Error (str "No editor target found").

(** The inspection snippets are sent as source text; here each text is
    abbreviated to a label, and what the chat and workspace snippets compute
    in the page is modelled further down. *)
Definition snippet (label : string) : json :=
  obj [("expression", str label); ("returnByValue", JBool true)].

(** [result.result?.value || fallback]. *)
Definition value_or (result fallback : json) : M json :=
  r ← get_prop result "result";
  mret (js_or (opt_prop r "value") fallback).

Definition captureScreenshot (options : json) : M json :=
  let options := match options with JUndefined => JObj [] | o => o end in
  target ← findEditorTarget;
  match target with
  | None => throw no_editor_target
  | Some target =>
      connectToTarget target;;
      try_finally
        (format ← get_prop options "format";
         quality ← get_prop options "quality";
         result ← client_send "Page.captureScreenshot"
           (obj [("format", js_or format (str "png"));
                 ("quality", js_or quality (JNum 80));
                 ("captureBeyondViewport", JBool false)]);
         get_prop result "data")
        client_close
  end.

Definition getPageMetrics : M json :=
  target ← findEditorTarget;
  match target with
  | None => throw no_editor_target
  | Some target =>
      connectToTarget target;;
      try_finally
        (metrics ← client_send "Page.getLayoutMetrics" JUndefined;
         mret metrics)
        client_close
  end.

Definition is_high_surrogate (c : N) : bool :=
  ((55296 <=? c) && (c <=? 56319))%N.
Definition is_low_surrogate (c : N) : bool :=
  ((56320 <=? c) && (c <=? 57343))%N.

(** What [for (const char of text)] iterates over: code points, a
    surrogate pair being one of them. *)
Fixpoint chars_of (text : list N) : list (list N) :=
  match text with
  | [] => []
  | a :: rest =>
      match rest with
      | b :: rest' =>
          if is_high_surrogate a && is_low_surrogate b
          then [a; b] :: chars_of rest'
          else [a] :: chars_of rest
      | [] => [[a]]
      end
  end.

(** The body of the typing loop of [injectCommand]. *)
Fixpoint type_chars (chars : list (list N)) : M unit :=
  match chars with
  | [] => mret tt
  | char :: rest =>
      let code := JStr (lit "Key" ++ toUpperCase char) in
      client_send "Input.dispatchKeyEvent"
        (obj [("type", str "keyDown"); ("text", JStr char);
              ("key", JStr char); ("code", code)]);;
      client_send "Input.dispatchKeyEvent"
        (obj [("type", str "keyUp"); ("key", JStr char); ("code", code)]);;
      type_chars rest
  end.

Definition injectCommand (text : list N) : M json :=
  target ← findEditorTarget;
  match target with
  | None => throw no_editor_target
  | Some target =>
      connectToTarget target;;
      try_finally
        (client_send "Runtime.evaluate" (snippet "injectCommand: focus");;
         delay 100;;
         type_chars (chars_of text);;
         mret (obj [("success", JBool true); ("injected", JStr text)]))
        client_close
  end.

Definition enter_key (type : string) : json :=
  obj [("type", str type); ("key", str "Enter"); ("code", str "Enter");
       ("windowsVirtualKeyCode", JNum 13); ("nativeVirtualKeyCode", JNum 13)].

Definition injectAndSubmit (text : json) : M json :=
  target ← findEditorTarget;
  match target with
  | None => throw no_editor_target
  | Some target =>
      connectToTarget target;;
      try_finally
        (client_send "Input.insertText" (obj [("text", text)]);;
         delay 50;;
         client_send "Input.dispatchKeyEvent" (enter_key "keyDown");;
         client_send "Input.dispatchKeyEvent" (enter_key "keyUp");;
         mret (obj [("success", JBool true); ("submitted", text)]))
        client_close
  end.

Definition focusInput : M json :=
  target ← findEditorTarget;
  match target with
  | None => throw no_editor_target
  | Some target =>
      connectToTarget target;;
      try_finally
        (result ← client_send "Runtime.evaluate" (snippet "focusInput");
         value_or result (obj [("success", JBool false)]))
        client_close
  end.

Definition isAvailable : M json :=
  try_catch
    (version ← getVersion;
     browser ← get_prop version "Browser";
     mret (obj [("available", JBool true); ("browser", browser)]))
    (fun e =>
       mret (obj [("available", JBool false);
                  ("error", JStr (exn_message e))])).

Definition getChatMessages : M json :=
  target ← findEditorTarget;
  match target with
  | None => throw no_editor_target
  | Some target =>
      connectToTarget target;;
      try_finally
        (result ← client_send "Runtime.evaluate" (snippet "getChatMessages");
         value_or result (obj [("messages", JArr []); ("count", JNum 0)]))
        client_close
  end.

Definition getAgentPanelContent : M json :=
  target ← findEditorTarget;
  match target with
  | None => throw no_editor_target
  | Some target =>
      connectToTarget target;;
      try_finally
        (result ← client_send "Runtime.evaluate"
           (snippet "getAgentPanelContent");
         value_or result (obj [("found", JBool false); ("content", JStr [])]))
        client_close
  end.

Definition getConversationText : M json :=
  target ← findEditorTarget;
  match target with
  | None => throw no_editor_target
  | Some target =>
      connectToTarget target;;
      try_finally
        (result ← client_send "Runtime.evaluate"
           (snippet "getConversationText");
         value_or result (obj [("found", JBool false)]))
        client_close
  end.

(** ** The chat classifier (the snippet of [getChatMessages]) *)

(** [/^(a|b|...)/i]. *)
Definition prefix_ci (alternatives : list string) (s : list N) : bool :=
  existsb (fun a => starts_with eq_ci (lit a) s) alternatives.

(** [/^(a|b|...)$/i]. *)
Definition whole_ci (alternatives : list string) (s : list N) : bool :=
  existsb
    (fun a => starts_with eq_ci (lit a) s && (length s =? length (lit a)))
    alternatives.

Fixpoint skip_digits (s : list N) : list N :=
  match s with
  | c :: s' => if is_digit c then skip_digits s' else s
  | [] => []
  end.

(** [/^\d+:\d+/]. *)
Definition timestamp_re (s : list N) : bool :=
  match s with
  | d :: _ =>
      is_digit d &&
      match skip_digits s with
      | colon :: d' :: _ => (colon =? 58)%N && is_digit d'
      | _ => false
      end
  | [] => false
  end.

(** [/.*p/i] anchored at the start of [s]. *)
Fixpoint dot_star_then (p s : list N) : bool :=
  starts_with eq_ci p s ||
  match s with
  | c :: s' => negb (is_line_terminator c) && dot_star_then p s'
  | [] => false
  end.

(** An anchored matcher tried at every position. *)
Fixpoint search (m : list N -> bool) (s : list N) : bool :=
  m s || match s with _ :: s' => search m s' | [] => false end.

(** [/p.*q/i]. *)
Definition then_ci (p q : string) (s : list N) : bool :=
  search
    (fun t => starts_with eq_ci (lit p) t
              && dot_star_then (lit q) (drop (length (lit p)) t))
    s.

(** [/p/i]. *)
Definition contains_ci (p : string) (s : list N) : bool :=
  includes_ci s (lit p).

Definition blacklist : list (list N -> bool) :=
  [ prefix_ci ["gemini"; "claude"; "gpt"; "model"; "opus"; "sonnet"; "flash"];
    prefix_ci ["pro"; "low"; "high"; "medium"; "thinking"];
    prefix_ci ["submit"; "cancel"; "dismiss"; "retry"];
    prefix_ci ["planning"; "execution"; "verification"];
    whole_ci ["agent"; "assistant"; "user"];
    timestamp_re;
    contains_ci "terminated due to error";
    contains_ci "troubleshooting guide";
    contains_ci "can plan before executing";
    then_ci "deep research" "complex tasks";
    contains_ci "conversation mode";
    contains_ci "fast agent";
    contains_ci "(thinking)";
    contains_ci "ask anything";
    contains_ci "add context";
    contains_ci "workflows";
    contains_ci "mentions" ]%string.

Definition isBlacklisted (text : list N) : bool :=
  let trimmed := trim text in
  if length trimmed <? 20 then true
  else if length (split_unit 32 trimmed) <? 4 then true
  else existsb (fun pattern => pattern trimmed) blacklist.

(** What the snippet reads of an element. *)
Record Element : Type := mkElement {
  innerText : option (list N);
  className : list N
}.

Inductive Role : Type := user | agent.

Record ChatMessage : Type := mkChatMessage {
  role : Role;
  content : list N;
  timestamp : list N
}.

(** [/[.!?]/.test(text)]. *)
Definition hasProperSentences (text : list N) : bool :=
  existsb (fun c => (c =? 46) || (c =? 33) || (c =? 63))%N text.

(** [text.split(/\s+/).length]. *)
Definition wordCount (text : list N) : nat :=
  length (split_runs is_space false text).

(** The two nested conditions under which an element is pushed, on the
    trimmed [innerText]. *)
Definition accepts_text (text : list N) : bool :=
  negb (is_empty text) && negb (isBlacklisted text)
  && (30 <? length text) && (length text <? 5000)
  && (hasProperSentences text && (5 <? wordCount text)).

Definition accepts (el : Element) : bool :=
  match innerText el with
  | Some raw => accepts_text (trim raw)
  | None => false
  end.

Definition role_of (el : Element) : Role :=
  let classStr := toLowerCase (className el) in
  if includes classStr (lit "user") || includes classStr (lit "human")
  then user else agent.

(** The record pushed for an accepted element; [stamp] is what
    [new Date().toISOString()] gives at that push. *)
Definition message_of (stamp : list N) (el : Element) : ChatMessage :=
  {| role := role_of el;
     content := substring 0 1500 (trim (default [] (innerText el)));
     timestamp := stamp |}.

(** One turn of the inner loop. The clock is read at every push: [now k] is
    what [new Date().toISOString()] gives when [k] records have been pushed
    before. *)
Definition visit (now : nat -> list N) (messages : list ChatMessage)
    (el : Element) : list ChatMessage :=
  if accepts el
  then messages ++ [message_of (now (length messages)) el]
  else messages.

(** The records of the accepted elements of one selector, in document
    order, pushed onto an empty list. *)
Definition accepted (now : nat -> list N) (els : list Element)
  : list ChatMessage :=
  imap (fun k el => message_of (now k) el) (List.filter accepts els).

Definition conversationSelectors : list string :=
  [ ".conversation-content"; ".agent-response"; ".assistant-message";
    ".user-query"; "[data-mode-id] .view-lines"; ".auxiliary-bar .content";
    ".panel-content" ]%string.

(** The selector loop, on a page given by its [querySelectorAll]. *)
Fixpoint scan_selectors (querySelectorAll : string -> list Element)
    (now : nat -> list N) (selectors : list string)
    (messages : list ChatMessage)
  : list ChatMessage :=
  match selectors with
  | [] => messages
  | sel :: rest =>
      let messages := foldl (visit now) messages (querySelectorAll sel) in
      if 0 <? length messages then messages
      else scan_selectors querySelectorAll now rest messages
  end.

(** What the snippet returns: [messages.slice(-20)] and [messages.length]. *)
Definition chat_snippet (querySelectorAll : string -> list Element)
    (now : nat -> list N) : list ChatMessage * nat :=
  let messages := scan_selectors querySelectorAll now conversationSelectors [] in
  (drop (length messages - 20) messages, length messages).

(** ** The workspace locator ([getWorkspacePath]) *)

(** The longest prefix of [s] without a hyphen, and what follows it. *)
Fixpoint span_no_hyphen (s : list N) : list N * list N :=
  match s with
  | [] => ([], [])
  | c :: s' =>
      if (c =? 45)%N then ([], s)
      else let '(name, rest) := span_no_hyphen s' in (c :: name, rest)
  end.

(** [target.title.match(/^([^-]+)\s*-\s*Antigravity/)] and the trimmed first
    group, or [null]. *)
Definition project_name (title : list N) : option (list N) :=
  match span_no_hyphen title with
  | ((_ :: _) as name, _hyphen :: after) =>
      if starts_with eq_cs (lit "Antigravity") (trimStart after)
      then Some (trim name) else None
  | _ => None
  end.

(** [pathPart.substring(0, endIdx).trim()], [endIdx] being the least
    positive index of a delimiter. *)
Definition cut_at (delims : list (list N)) (pathPart : list N) : list N :=
  let endIdx :=
    foldl
      (fun endIdx delim =>
         match indexOf pathPart delim with
         | Some idx => if (0 <? idx) && (idx <? endIdx) then idx else endIdx
         | None => endIdx
         end)
      (length pathPart) delims in
  trim (substring 0 endIdx pathPart).

Definition windows_delims : list (list N) := [lit ","; lit ";"; lit " - "].
Definition unix_delims : list (list N) :=
  [lit ","; lit ";"; lit " - "; [39%N]; [34%N]].
Definition unixRoots : list (list N) :=
  [lit "/home/"; lit "/Users/"; lit "/var/"; lit "/opt/"].

(** The loop over [k]: a letter followed by a colon. *)
Fixpoint windows_scan (src : list N) : option (list N) :=
  match src with
  | ch :: rest =>
      match rest with
      | next :: _ =>
          if is_ascii_letter ch && (next =? 58)%N
          then Some (cut_at windows_delims src)
          else windows_scan rest
      | [] => None
      end
  | [] => None
  end.

(** The loop over [unixRoots]. *)
Fixpoint unix_scan (roots : list (list N)) (src : list N) : option (list N) :=
  match roots with
  | [] => None
  | root :: more =>
      match indexOf src root with
      | Some idx => Some (cut_at unix_delims (drop idx src))
      | None => unix_scan more src
      end
  end.

(** What one label yields: the path and [isWindows]. *)
Definition path_of_source (src : list N) : option (list N * bool) :=
  if length src <? 5 then None
  else match windows_scan src with
       | Some path => Some (path, true)
       | None =>
           match unix_scan unixRoots src with
           | Some path => Some (path, false)
           | None => None
           end
       end.

Record Tab : Type := mkTab {
  aria_label : option (list N);
  title_attr : option (list N)
}.

Fixpoint first_path (sources : list (list N)) : option (list N * bool) :=
  match sources with
  | [] => None
  | src :: more =>
      match path_of_source src with
      | Some found => Some found
      | None => first_path more
      end
  end.

(** Method 1: the tabs, each with [sources = [ariaLabel, title]]. *)
Definition scan_tabs (tabs : list Tab) : option (list N * bool) :=
  first_path
    (concat (map (fun tab => [default [] (aria_label tab);
                              default [] (title_attr tab)]) tabs)).

(** Method 2: the [data-uri] attributes; [decodeURIComponent] is the host's,
    [None] standing for its URIError. *)
Fixpoint scan_uris (decodeURIComponent : list N -> option (list N))
    (uris : list (list N)) : option (list N * bool) :=
  match uris with
  | [] => None
  | uri :: more =>
      if starts_with eq_cs (lit "file:///") uri then
        match decodeURIComponent (drop 8 uri) with
        | Some decoded =>
            let isWin := (1 <? length decoded)
                         && bool_decide (decoded !! 1 = Some 58%N) in
            Some (if isWin then join [92%N] (split_unit 47 decoded)
                  else decoded, isWin)
        | None => scan_uris decodeURIComponent more
        end
      else scan_uris decodeURIComponent more
  end.

(** The value the workspace snippet returns. *)
Definition workspace_snippet (decodeURIComponent : list N -> option (list N))
    (tabs : list Tab) (uris : list (list N)) : json :=
  match scan_tabs tabs with
  | Some (path, isWindows) =>
      obj [("path", JStr path); ("source", str "tab");
           ("isWindows", JBool isWindows)]
  | None =>
      match scan_uris decodeURIComponent uris with
      | Some (path, isWindows) =>
          obj [("path", JStr path); ("source", str "data-uri");
               ("isWindows", JBool isWindows)]
      | None => obj [("path", JNull); ("error", str "No path found")]
      end
  end.

Definition is_slash (c : N) : bool := (c =? 47)%N.
Definition is_any_slash (c : N) : bool := ((c =? 47) || (c =? 92))%N.

(** [filePath.split(sep).filter(Boolean)]. *)
Definition path_parts (filePath : list N) (isWindows : bool)
  : list (list N) :=
  List.filter (fun part => negb (is_empty part))
    (split_runs (if isWindows then is_any_slash else is_slash) false filePath).

(** The index the [for] loop returns at. *)
Fixpoint match_index (name : list N) (parts : list (list N)) (i : nat)
  : option nat :=
  match parts with
  | [] => None
  | part :: more =>
      if bool_decide (toLowerCase part = toLowerCase name) then Some i
      else match_index name more (S i)
  end.

(** [parts[0] + ...]: an absent first part concatenates as ["undefined"]. *)
Definition first_part (parts : list (list N)) : list N :=
  match parts !! 0 with
  | Some part => part
  | None => lit "undefined"
  end.

(** [parts.slice(0, -1)]. *)
Definition drop_last (parts : list (list N)) : list (list N) :=
  take (length parts - 1) parts.

(** Lines 619 to 642: from the file path to the workspace folder. *)
Definition resolve_workspace (filePath : list N) (isWindows : bool)
    (projectName : option (list N)) : list N :=
  let pathParts := path_parts filePath isWindows in
  let found :=
    match projectName with
    | Some name =>
        if is_empty name then None else match_index name pathParts 0
    | None => None
    end in
  match found with
  | Some i =>
      if isWindows
      then first_part pathParts ++ [92%N]
             ++ join [92%N] (take i (drop 1 pathParts))
      else [47%N] ++ join [47%N] (take (i + 1) pathParts)
  | None =>
      let parentParts := drop_last pathParts in
      if isWindows
      then first_part parentParts ++ [92%N]
             ++ join [92%N] (drop 1 parentParts)
      else [47%N] ++ join [47%N] parentParts
  end.

(** [getWorkspacePath]; the [console.log] calls are left out. *)
Definition getWorkspacePath : M json :=
  target ← findEditorTarget;
  match target with
  | None => mret JNull
  | Some target =>
      let projectName := project_name (title target) in
      connectToTarget target;;
      try_finally
        (result ← client_send "Runtime.evaluate"
           (snippet "getWorkspacePath");
         r ← get_prop result "result";
         let data := opt_prop r "value" in
         if negb (truthy (opt_prop data "path")) then mret JNull
         else
           match prop data "path" with
           | JStr filePath =>
               mret (JStr (resolve_workspace filePath
                             (truthy (prop data "isWindows")) projectName))
           | _ =>
               throw (JsError "TypeError"
                        (lit "filePath.split is not a function"))
           end)
        client_close
  end.

(** The operations of the facade that work on a session. *)
Inductive command : Type :=
| CaptureScreenshot (options : json)
| GetPageMetrics
| InjectCommand (text : list N)
| InjectAndSubmit (text : json)
| FocusInput
| GetChatMessages
| GetAgentPanelContent
| GetConversationText
| GetWorkspacePath.

Definition run (c : command) : M json :=
  match c with
  | CaptureScreenshot options => captureScreenshot options
  | GetPageMetrics => getPageMetrics
  | InjectCommand text => injectCommand text
  | InjectAndSubmit text => injectAndSubmit text
  | FocusInput => focusInput
  | GetChatMessages => getChatMessages
  | GetAgentPanelContent => getAgentPanelContent
  | GetConversationText => getConversationText
  | GetWorkspacePath => getWorkspacePath
  end.

Definition is_close (ev : event) : bool :=
  match ev with EvClose => true | _ => false end.

Definition is_open (ev : event) : bool :=
  match ev with EvOpen _ => true | _ => false end.

(** How often [close()] was called, how often a socket opened. *)
Definition closes (w : World) : nat := length (List.filter is_close (trace w)).
Definition opens (w : World) : nat := length (List.filter is_open (trace w)).

(** A computation that neither opens nor closes a socket. *)
Definition quiet {B : Type} (m : M B) : Prop :=
  forall w r w', m w = (r, w') -> opens w' = opens w /\ closes w' = closes w.

(** A computation that opens at most one socket and, when it opened one,
    has called [close()] exactly once by the time it returns or throws, and
    not at all while it is stuck. *)
Definition closes_once {B : Type} (m : M B) : Prop :=
  forall w r w', m w = (r, w') ->
    (opens w' = opens w /\ closes w' = closes w)
    \/ (opens w' = S (opens w)
        /\ closes w' = (if r is Stuck then closes w else S (closes w))
        /\ (r <> Stuck -> ws_open (session w') = false
                          /\ last (trace w') = Some EvClose)).

(** ** Sample data for the examples *)

Definition prose : list N :=
  lit "The function failed because the input was malformed, please retry.".

Definition short_prose : list N := lit "We can do it now, ok go.".

(** A page whose first container holds a button label and whose second
    holds a message. *)
Definition two_container_page (sel : string) : list Element :=
  if String.eqb sel ".conversation-content"
  then [ {| innerText := Some (lit "Submit"); className := lit "btn" |} ]
  else if String.eqb sel ".agent-response"
  then [ {| innerText := Some prose; className := lit "agent-response" |} ]
  else [].

Definition editor_window : Target :=
  {| target_id := lit "A1";
     type_ := lit "page";
     title := lit "MyProject - Antigravity";
     url := lit "vscode-file://vscode-app/workbench.html";
     webSocketDebuggerUrl := Some (lit "ws://localhost:9222/devtools/page/A1") |}.

Definition launchpad_window : Target :=
  {| target_id := lit "B2";
     type_ := lit "page";
     title := lit "Antigravity - Launchpad";
     url := lit "vscode-file://vscode-app/launchpad.html";
     webSocketDebuggerUrl := Some (lit "ws://localhost:9222/devtools/page/B2") |}.

Definition service_worker : Target :=
  {| target_id := lit "C3";
     type_ := lit "service_worker";
     title := lit "Antigravity";
     url := lit "vscode-file://vscode-app/worker.js";
     webSocketDebuggerUrl := Some (lit "ws://localhost:9222/devtools/page/C3") |}.

Definition sample_env : Env :=
  {| list_reply := inr [launchpad_window; editor_window];
     version_reply := inr (obj [("Browser", str "Chrome/120.0")]);
     connect_reply := ConnOpen |}.

(** An environment whose target list holds no page. *)
Definition pageless_env : Env :=
  {| list_reply := inr [service_worker];
     version_reply := inr (obj [("Browser", str "Chrome/120.0")]);
     connect_reply := ConnOpen |}.

(** A pattern unit that no white space matches under case folding. *)
Definition solid (a : N) : Prop :=
  forall c, is_space c = true -> eq_ci a c = false.

(** ** The workspace folder in the words of the specification

    The path is cut into segments; the answer is the path truncated at the
    first segment equal to the project name irrespective of case, and the
    path without its last segment when there is no such segment or no
    project name. A folder is written the way the code writes it: the
    segments joined by the separator, behind a leading slash on Unix and
    with a separator behind the drive on Windows. *)

Definition render_folder (isWindows : bool) (parts : list (list N))
  : list N :=
  if isWindows then
    match parts with
    | [] => []
    | drive :: rest => drive ++ [92%N] ++ join [92%N] rest
    end
  else [47%N] ++ join [47%N] parts.

Definition workspace_by_claim (filePath : list N) (isWindows : bool)
    (projectName : option (list N)) : list N :=
  let parts := path_parts filePath isWindows in
  let found :=
    match projectName with
    | Some name => if is_empty name then None else match_index name parts 0
    | None => None
    end in
  match found with
  | Some i => render_folder isWindows (take (i + 1) parts)
  | None => render_folder isWindows (drop_last parts)
  end.

(** The page of the example: one tab with the Unix-style label. *)
Definition unix_tab : Tab :=
  {| aria_label :=
       Some (lit "/Users/alice/MyProject/src/index.ts - MyProject");
     title_attr := None |}.

(** A tab that previews a file. *)
Definition preview_tab : Tab :=
  {| aria_label := Some (lit "Preview: README.md"); title_attr := None |}.

(** The response to request 1 that carries what the snippet returned. *)
Definition evaluated (value : json) : json :=
  obj [("id", JNum 1);
       ("result", obj [("result", obj [("type", str "object");
                                        ("value", value)])])].

(** ** Reading a trace *)

(** The identifiers of the requests of a trace, in the order sent. *)
Definition sent_ids (tr : list event) : list json :=
  omap (fun ev => match ev with
                  | EvSend envelope => Some (prop envelope "id")
                  | _ => None
                  end) tr.

(** The [n] identifiers that [messageId++] hands out from [m] on. *)
Fixpoint ids_from (m : Z) (n : nat) : list Z :=
  match n with
  | 0 => []
  | S n' => m :: ids_from (js_incr m) n'
  end.

Definition is_str (v : json) (s : string) : bool :=
  match v with
  | JStr l => bool_decide (l = lit s)
  | _ => false
  end.

(** The [text] of the key-down events of a trace, in the order sent. *)
Definition key_down_texts (tr : list event) : list json :=
  omap (fun ev =>
          match ev with
          | EvSend envelope =>
              if is_str (prop envelope "method") "Input.dispatchKeyEvent"
                 && is_str (prop (prop envelope "params") "type") "keyDown"
              then Some (prop (prop envelope "params") "text")
              else None
          | _ => None
          end) tr.

(** A computation on an open session that only adds to the trace and whose
    requests carry the identifiers the counter hands out. *)
Definition numbered {B : Type} (m : M B) : Prop :=
  forall w r w', m w = (r, w') ->
    exists evs,
      trace w' = trace w ++ evs
      /\ sent_ids evs
         = map JNum (ids_from (messageId (session w)) (length (sent_ids evs)))
      /\ messageId (session w')
         = Nat.iter (length (sent_ids evs)) js_incr (messageId (session w)).

(** The world of a command right after its socket opened. *)
Definition opened_world (e : Env) (incoming : list json) (wsUrl : list N)
  : World :=
  {| env := e; session := new_session; inbox := incoming;
     trace := [EvFetch "/json/list"; EvOpen wsUrl] |}.

(** What the commands built on [result.result?.value || fallback] fall back
    to. *)
Definition evaluation_fallback (c : command) : option json :=
  match c with
  | FocusInput => Some (obj [("success", JBool false)])
  | GetChatMessages => Some (obj [("messages", JArr []); ("count", JNum 0)])
  | GetAgentPanelContent =>
      Some (obj [("found", JBool false); ("content", JStr [])])
  | GetConversationText => Some (obj [("found", JBool false)])
  | _ => None
  end.

(** The words the four anchored alternations of the blacklist begin
    with. *)
Definition anchored_prefixes : list string :=
  [ "gemini"; "claude"; "gpt"; "model"; "opus"; "sonnet"; "flash";
    "pro"; "low"; "high"; "medium"; "thinking";
    "submit"; "cancel"; "dismiss"; "retry";
    "planning"; "execution"; "verification" ]%string.

(** [Boolean] as the filter of [path_parts] uses it. *)
Definition nonempty_segment (p : list N) : bool := negb (is_empty p).

(** ** The launcher ([launcher.mjs])

    What the launcher asks of its host: the platform name, the file system,
    the output of a shell command, the environment variable that names a
    custom executable, and the table [ANTIGRAVITY_PATHS] as it was built
    when the module was loaded. *)

Record Host : Type := mkHost {
  platform : list N;
  existsSync : list N -> bool;
  exec_stdout : list N -> option (list N);
  ANTIGRAVITY_PATHS : list N -> option (list (list N));
  ANTIGRAVITY_PATH : option (list N)
}.

(** [findViaCommand]: the first line of the output, trimmed, when it names
    an existing file. *)
Definition findViaCommand (host : Host) (cmd : list N) : option (list N) :=
  match exec_stdout host cmd with
  | None => None
  | Some stdout =>
      let path := trim (hd [] (split_unit 10 stdout)) in
      if negb (is_empty path) && existsSync host path then Some path
      else None
  end.

(** [findAntigravityPath], on a given table of candidates. *)
Definition findAntigravityPath (host : Host)
    (table : list N -> option (list (list N))) : option (list N) :=
  let os := platform host in
  let paths := default [] (table os) in
  match List.find (fun p => negb (is_empty p) && existsSync host p) paths with
  | Some p => Some p
  | None =>
      if bool_decide (os = lit "win32")
      then findViaCommand host (lit "where Antigravity.exe")
      else findViaCommand host (lit "which antigravity")
  end.

(** The table after the lines under "Custom path from env": an existing
    custom path replaces the candidates of this platform. *)
Definition custom_paths (host : Host) : list N -> option (list (list N)) :=
  match ANTIGRAVITY_PATH host with
  | Some customPath =>
      if negb (is_empty customPath) && existsSync host customPath
      then fun os => if bool_decide (os = platform host)
                     then Some [customPath]
                     else ANTIGRAVITY_PATHS host os
      else ANTIGRAVITY_PATHS host
  | None => ANTIGRAVITY_PATHS host
  end.

(** The executable [main] goes on with, or [null]. *)
Definition antigravityPath (host : Host) : option (list N) :=
  findAntigravityPath host (custom_paths host).

(** An entry of [os.networkInterfaces()]. *)
Record NetAddress : Type := mkNetAddress {
  address : list N;
  family : list N;
  internal : bool
}.

(** [getLocalIPs], on the interfaces in the order of [Object.keys]. *)
Definition getLocalIPs (nets : list (list N * list NetAddress))
  : list (list N) :=
  concat
    (map (fun entry =>
            map address
              (List.filter
                 (fun net => bool_decide (family net = lit "IPv4")
                             && negb (internal net))
                 entry.2))
       nets).

(** [ips.find(ip => ip.startsWith('192.168.')) || ips[0] || 'YOUR_IP']. *)
Definition mainIP (ips : list (list N)) : list N :=
  match List.find (starts_with eq_cs (lit "192.168.")) ips with
  | Some ip => ip
  | None =>
      match ips with
      | ip :: _ => if is_empty ip then lit "YOUR_IP" else ip
      | [] => lit "YOUR_IP"
      end
  end.

(** A Linux host on which only one of the candidates exists. *)
Definition linux_host : Host :=
  {| platform := lit "linux";
     existsSync := fun p => bool_decide (p = lit "/opt/Antigravity/antigravity");
     exec_stdout := fun _ => Some [];
     ANTIGRAVITY_PATHS := fun os =>
       if bool_decide (os = lit "linux")
       then Some [lit "/usr/bin/antigravity"; lit "/usr/local/bin/antigravity";
                  lit "/opt/Antigravity/antigravity";
                  lit "/home/alice/.local/bin/antigravity"]
       else None;
     ANTIGRAVITY_PATH := None |}.

(** The same host with a custom path that does not exist. *)
Definition linux_host_custom : Host :=
  {| platform := platform linux_host;
     existsSync := existsSync linux_host;
     exec_stdout := exec_stdout linux_host;
     ANTIGRAVITY_PATHS := ANTIGRAVITY_PATHS linux_host;
     ANTIGRAVITY_PATH := Some (lit "/snap/bin/antigravity") |}.

(** [w] with other messages to come. *)
Definition with_inbox (w : World) (incoming : list json) : World :=
  {| env := env w; session := session w; inbox := incoming;
     trace := trace w |}.

(** The envelopes of the requests of a trace, in the order sent. *)
Definition requests (tr : list event) : list json :=
  omap (fun ev => match ev with
                  | EvSend envelope => Some envelope
                  | _ => None
                  end) tr.

(** The methods of the requests of a trace, in the order sent. *)
Definition sent_methods (tr : list event) : list json :=
  map (fun envelope => prop envelope "method") (requests tr).

(** ** Letter case in U+0000..U+00FF

    The vocabulary to say, without [toLowerCase], when two strings of that
    range are equal irrespective of case. *)

(** A capital letter: the units [toLowerCase] moves, each to the unit 32
    above it. *)
Definition capital (c : N) : Prop :=
  (65 <= c <= 90 \/ 192 <= c <= 222 /\ c <> 215)%N.

(** The same letter: equal units, or a capital and its small letter. *)
Definition same_letter (a b : N) : Prop :=
  a = b \/ (capital a /\ b = (a + 32)%N) \/ (capital b /\ a = (b + 32)%N).

Definition same_ignoring_case (p q : list N) : Prop :=
  Forall2 same_letter p q.

Definition latin1 (s : list N) : Prop := Forall (fun c => (c < 256)%N) s.

(** * Part II: lemmas and theorems *)

(** ** Correlation: lemmas on the handler *)

Section Correlation.

Implicit Types (s : Session) (msg : json) (ps : list promise_state).

Lemma settle_lookup_same h o ps :
  ps !! h = Some PPending -> settle h o ps !! h = Some (Settled o).
Proof.
  intros Hp. unfold settle. rewrite Hp.
  apply list_lookup_insert_eq. by eapply lookup_lt_Some.
Qed.

Lemma settle_lookup_other h h' o ps :
  h' <> h -> settle h o ps !! h' = ps !! h'.
Proof.
  intros Hne. unfold settle.
  destruct (ps !! h) as [[|]|]; try done.
  by apply list_lookup_insert_ne.
Qed.

Lemma settle_commute h1 h2 o1 o2 ps :
  h1 <> h2 ->
  settle h1 o1 (settle h2 o2 ps) = settle h2 o2 (settle h1 o1 ps).
Proof.
  intros Hne. unfold settle at 1 3.
  rewrite !settle_lookup_other by done.
  unfold settle.
  destruct (ps !! h1) as [[|]|], (ps !! h2) as [[|]|]; try done.
  by apply list_insert_insert_ne.
Qed.

Lemma truthy_JNum id : truthy (JNum id) = true -> id <> 0%Z.
Proof. simpl. intros H ->. done. Qed.

(** A response whose identifier is pending. *)
Lemma on_message_hit s msg id h :
  prop msg "id" = JNum id -> id <> 0%Z -> pending s !! id = Some h ->
  on_message msg s =
    {| messageId := messageId s;
       pending := delete id (pending s);
       promises := settle h (response_outcome msg) (promises s);
       ws_open := ws_open s |}.
Proof.
  intros Hid Hnz Hp. unfold on_message. rewrite Hid. simpl.
  destruct (Z.eqb_spec id 0) as [|_]; [done|]. simpl. by rewrite Hp.
Qed.

(** A message whose identifier is not pending. *)
Lemma on_message_miss s msg :
  pending_get (pending s) (prop msg "id") = None -> on_message msg s = s.
Proof.
  intros Hm. unfold on_message. rewrite Hm. by destruct (truthy _).
Qed.

Lemma reachable_inv s : reachable s -> session_inv s.
Proof.
  induction 1 as [|method params s _ [Hc Hk Hw Hd]
                  |msg s _ [Hc Hk Hw Hd]|s _ [Hc Hk Hw Hd]].
  - split; simpl; try lia; intros *; by rewrite lookup_empty.
  - split; simpl.
    + unfold js_incr. destruct (Z.ltb_spec (messageId s) (2 ^ 53)); lia.
    + intros id h. rewrite lookup_insert. case_decide; [lia|eauto].
    + intros id h. rewrite lookup_insert. case_decide.
      * intros [= <-]. by rewrite lookup_app_r, Nat.sub_diag.
      * intros Hp. rewrite lookup_app_l; [eauto|].
        eapply lookup_lt_Some; eauto.
    + intros id1 id2 h. rewrite !lookup_insert.
      repeat case_decide; subst; try done.
      * intros [= <-] Hp. apply Hw, lookup_lt_Some in Hp. lia.
      * intros Hp [= <-]. apply Hw, lookup_lt_Some in Hp. lia.
      * eauto.
  - unfold on_message.
    destruct (truthy (prop msg "id")) eqn:Ht; [|by split].
    destruct (prop msg "id") as [| | | id | | | |]; simpl; try by split.
    destruct (pending s !! id) as [h|] eqn:Hp; [|by split].
    split; simpl.
    + done.
    + intros id' h'. rewrite lookup_delete. case_decide; [done|eauto].
    + intros id' h'. rewrite lookup_delete. case_decide; [done|].
      intros Hp'. rewrite settle_lookup_other; [eauto|].
      intros ->. eauto.
    + intros id1 id2 h'. rewrite !lookup_delete.
      repeat case_decide; try done. eauto.
  - by split.
Qed.

(** After a response was handled, a message with the same identifier is
    not recognized any more. *)
Lemma on_message_again s msg msg2 :
  prop msg2 "id" = prop msg "id" ->
  is_Some (pending_get (pending s) (prop msg "id")) ->
  truthy (prop msg "id") = true ->
  on_message msg2 (on_message msg s) = on_message msg s.
Proof.
  intros Hsame [h Hp] Ht. apply on_message_miss. rewrite Hsame.
  unfold on_message. rewrite Ht, Hp. simpl.
  destruct (prop msg "id"); simpl in *; try done. apply lookup_delete_eq.
Qed.

Lemma pending_get_after s msg v :
  pending_get (pending s) v = None ->
  pending_get (pending (on_message msg s)) v = None.
Proof.
  intros Hv. unfold on_message.
  destruct (truthy _); [|done].
  destruct (pending_get (pending s) (prop msg "id")); [|done]. simpl.
  destruct v; simpl in *; try done.
  destruct (prop msg "id"); simpl; try done.
  rewrite lookup_delete. by case_decide.
Qed.

(** Two responses with different identifiers can be handled in either
    order. *)
Lemma on_message_commute s m1 m2 :
  session_inv s ->
  prop m1 "id" <> prop m2 "id" ->
  on_message m1 (on_message m2 s) = on_message m2 (on_message m1 s).
Proof.
  intros [_ _ _ Hd] Hne.
  destruct (truthy (prop m1 "id")) eqn:Ht1;
    [|unfold on_message at 1 4; by rewrite Ht1].
  destruct (truthy (prop m2 "id")) eqn:Ht2;
    [|unfold on_message at 2 3; by rewrite Ht2].
  destruct (pending_get (pending s) (prop m1 "id")) as [h1|] eqn:Hp1;
    [|rewrite (on_message_miss s m1) by done;
      by rewrite on_message_miss by by apply pending_get_after].
  destruct (pending_get (pending s) (prop m2 "id")) as [h2|] eqn:Hp2;
    [|rewrite (on_message_miss s m2) by done;
      by rewrite (on_message_miss (on_message m1 s))
        by by apply pending_get_after].
  destruct (prop m1 "id") as [| | | i1 | | | |] eqn:E1; try done.
  destruct (prop m2 "id") as [| | | i2 | | | |] eqn:E2; try done.
  simpl in Hp1, Hp2.
  assert (i1 <> i2) by congruence.
  assert (h1 <> h2) by (intros ->; eauto).
  apply truthy_JNum in Ht1, Ht2.
  rewrite (on_message_hit s m2 i2 h2), (on_message_hit s m1 i1 h1) by done.
  rewrite (on_message_hit _ m1 i1 h1), (on_message_hit _ m2 i2 h2);
    simpl; try done; try by rewrite lookup_delete_ne.
  f_equal; [apply delete_delete|by apply settle_commute].
Qed.

End Correlation.

(** ** Correlation: responses in any order *)

Lemma settle_keeps_settled h h' o o' (ps : list promise_state) :
  ps !! h = Some (Settled o) -> settle h' o' ps !! h = Some (Settled o).
Proof.
  intros Hp. destruct (decide (h = h')) as [<-|Hne].
  - unfold settle. by rewrite Hp.
  - by rewrite settle_lookup_other.
Qed.

Lemma on_message_keeps_settled (s : Session) msg h o :
  promises s !! h = Some (Settled o) ->
  promises (on_message msg s) !! h = Some (Settled o).
Proof.
  intros Hp. unfold on_message.
  destruct (truthy _); [|done].
  destruct (pending_get _ _); [|done]. simpl.
  by apply settle_keeps_settled.
Qed.

Lemma deliver_keeps_settled msgs (s : Session) h o :
  promises s !! h = Some (Settled o) ->
  promises (deliver msgs s) !! h = Some (Settled o).
Proof.
  revert s. induction msgs as [|m msgs IH]; intros s Hp; [done|].
  simpl. destruct (handler_throws m); [done|].
  apply IH. by apply on_message_keeps_settled.
Qed.

Lemma on_message_keeps_pending (s : Session) msg id h :
  prop msg "id" <> JNum id ->
  pending s !! id = Some h ->
  pending (on_message msg s) !! id = Some h.
Proof.
  intros Hne Hp. unfold on_message.
  destruct (truthy _); [|done].
  destruct (pending_get _ _) eqn:Hg; [|done]. simpl.
  destruct (prop msg "id") as [| | | i | | | |]; simpl in *; try done.
  rewrite lookup_delete_ne; [done|congruence].
Qed.

(** Responses with pairwise different identifiers, delivered in whatever
    order the list has: each pending request ends with its own response. *)
Lemma deliver_any_order msgs (s : Session) msg id h :
  reachable s ->
  (forall m, m ∈ msgs -> handler_throws m = false) ->
  NoDup (map (fun m => prop m "id") msgs) ->
  msg ∈ msgs ->
  prop msg "id" = JNum id ->
  pending s !! id = Some h ->
  promises (deliver msgs s) !! h = Some (Settled (response_outcome msg)).
Proof.
  revert s. induction msgs as [|m msgs IH]; intros s Hr Hok Hnd Hin Hid Hp.
  - by apply elem_of_nil in Hin.
  - simpl in *. rewrite (Hok m) by apply list_elem_of_here.
    apply NoDup_cons in Hnd as [Hfresh Hnd].
    apply elem_of_cons in Hin as [<-|Hin].
    + apply deliver_keeps_settled.
      pose proof (reachable_inv s Hr) as [_ Hk Hw _].
      rewrite (on_message_hit s msg id h); simpl; eauto.
      * apply settle_lookup_same; eauto.
      * specialize (Hk _ _ Hp). lia.
    + apply IH; auto using reach_message.
      * intros m' Hm'. apply Hok. by apply list_elem_of_further.
      * apply on_message_keeps_pending; [|done].
        intros Heq. apply Hfresh. rewrite Heq, <- Hid.
        apply list_elem_of_fmap. by exists msg.
Qed.

(** While the counter has not reached 2^53, every pending identifier is
    below it. *)
Lemma pending_below_counter (s : Session) :
  reachable s ->
  forall id h, pending s !! id = Some h ->
    (id < messageId s)%Z \/ messageId s = (2 ^ 53)%Z.
Proof.
  induction 1 as [|method params s Hr IH|msg s Hr IH|s Hr IH]; intros id h.
  - simpl. by rewrite lookup_empty.
  - simpl. unfold js_incr. rewrite lookup_insert.
    destruct (Z.ltb_spec (messageId s) (2 ^ 53)); case_decide; subst.
    + intros _. lia.
    + intros Hp. destruct (IH _ _ Hp); lia.
    + intros _. pose proof (inv_counter s (reachable_inv s Hr)). lia.
    + intros Hp. destruct (IH _ _ Hp); lia.
  - unfold on_message. destruct (truthy _); [|apply IH].
    destruct (pending_get _ _); [|apply IH]. simpl.
    destruct (prop msg "id"); simpl; try apply IH.
    rewrite lookup_delete. case_decide; [done|apply IH].
  - apply IH.
Qed.

(** C1. On an open session, [send] puts [{ id, method, params }] on the wire
    under the next identifier, registers a fresh promise under it without
    touching the other entries, and moves the counter on, so that the
    identifier was not pending before. A response carrying identifier [id]
    settles the promise of the pending request registered under [id] and no
    other: it is fulfilled with the response's [result] when the response
    has no [error], and rejected with an [Error] whose message is the
    response's [error.message] when it has one. The entry is deleted from
    [pending], so a later message with the same identifier changes nothing.
    This holds for responses delivered in any order. A message whose
    identifier is not pending is ignored and the messages behind it are
    handled as usual; on a message that parses to [null] the handler throws
    and nothing is handled after it. *)
Theorem response_settles_matching_request (s : Session) :
  reachable s ->
  (forall method params,
      let issued := send method params s in
      prop issued.1.2 "id" = JNum (messageId s)
      /\ prop issued.1.2 "method" = JStr (lit method)
      /\ prop issued.1.2 "params"
         = match params with JUndefined => JObj [] | p => p end
      /\ pending issued.2 !! messageId s = Some issued.1.1
      /\ promises issued.2 !! issued.1.1 = Some PPending
      /\ (forall id, id <> messageId s ->
            pending issued.2 !! id = pending s !! id)
      /\ ((messageId s < 2 ^ 53)%Z ->
          pending s !! messageId s = None
          /\ messageId issued.2 = (messageId s + 1)%Z))
  /\ (forall msg id h,
        prop msg "id" = JNum id ->
        pending s !! id = Some h ->
        let s' := on_message msg s in
        promises s !! h = Some PPending
        /\ (truthy (prop msg "error") = false ->
            promises s' !! h = Some (Settled (Fulfilled (prop msg "result"))))
        /\ (truthy (prop msg "error") = true ->
            promises s' !! h
            = Some (Settled
                      (Rejected (new_Error (prop (prop msg "error") "message"))))
            /\ forall text,
                 prop (prop msg "error") "message" = JStr text ->
                 promises s' !! h
                 = Some (Settled (Rejected (JsError "Error" text))))
        /\ (forall h', h' <> h -> promises s' !! h' = promises s !! h')
        /\ pending s' = delete id (pending s)
        /\ (forall again, prop again "id" = JNum id ->
              on_message again s' = s'))
  /\ (forall msgs msg id h,
        (forall m, m ∈ msgs -> handler_throws m = false) ->
        NoDup (map (fun m => prop m "id") msgs) ->
        msg ∈ msgs ->
        prop msg "id" = JNum id ->
        pending s !! id = Some h ->
        promises (deliver msgs s) !! h
        = Some (Settled
                  (if truthy (prop msg "error")
                   then Rejected (new_Error (prop (prop msg "error") "message"))
                   else Fulfilled (prop msg "result"))))
  /\ (forall m1 m2,
        prop m1 "id" <> prop m2 "id" ->
        on_message m1 (on_message m2 s) = on_message m2 (on_message m1 s))
  /\ (forall stray msgs,
        handler_throws stray = false ->
        pending_get (pending s) (prop stray "id") = None ->
        on_message stray s = s /\ deliver (stray :: msgs) s = deliver msgs s)
  /\ (forall msgs, deliver (JNull :: msgs) s = s).
Proof.
  intros Hr. pose proof (reachable_inv s Hr) as Hinv.
  split; [|split; [|split; [|split; [|split]]]].
  - intros method params issued. subst issued. simpl.
    split; [done|]. split; [done|]. split; [done|].
    split; [apply lookup_insert_eq|].
    split; [by rewrite lookup_app_r, Nat.sub_diag|].
    split; [intros id Hne; by rewrite lookup_insert_ne|].
    intros Hlt. split.
    + destruct (pending s !! messageId s) as [h|] eqn:Hp; [|done].
      destruct (pending_below_counter s Hr _ _ Hp); lia.
    + unfold js_incr. destruct (Z.ltb_spec (messageId s) (2 ^ 53)); lia.
  - intros msg id h Hid Hp s'. subst s'.
    destruct Hinv as [_ Hk Hw _].
    assert (id <> 0%Z) by (specialize (Hk _ _ Hp); lia).
    rewrite (on_message_hit s msg id h) by done. simpl.
    assert (Hset : settle h (response_outcome msg) (promises s) !! h
                   = Some (Settled (response_outcome msg)))
      by (apply settle_lookup_same; eauto).
    unfold response_outcome in *.
    split; [eauto|].
    split; [intros Herr; by rewrite Herr in *|].
    split.
    { intros Herr. rewrite Herr in *. split; [done|].
      intros text Htext. by rewrite Htext in *. }
    split; [intros h' Hne; by apply settle_lookup_other|].
    split; [done|].
    intros again Hagain. apply on_message_miss. rewrite Hagain. simpl.
    apply lookup_delete_eq.
  - intros msgs msg id h Hok Hnd Hin Hid Hp.
    by apply (deliver_any_order msgs s msg id h).
  - intros m1 m2. by apply on_message_commute.
  - intros stray msgs Hok Hmiss.
    split; [by apply on_message_miss|].
    simpl. by rewrite Hok, on_message_miss.
  - done.
Qed.

(** A session with two requests outstanding, answered in reverse order, one
    with a result and one with an error. *)
Lemma response_settles_matching_request_witness :
  let s := (send "Page.enable" JUndefined
              (send "Runtime.enable" JUndefined new_session).2).2 in
  let second := obj [("id", JNum 2); ("result", str "two")] in
  let first :=
    obj [("id", JNum 1); ("error", obj [("message", str "failed")])] in
  promises (deliver [second; first] s) !! 0
  = Some (Settled (Rejected (JsError "Error" (lit "failed"))))
  /\ promises (deliver [second; first] s) !! 1
     = Some (Settled (Fulfilled (str "two")))
  /\ messageId s = 3%Z.
Proof.
  intros s second first.
  assert (Hr : reachable s) by (repeat constructor).
  destruct (response_settles_matching_request s Hr) as (_ & _ & Hany & _).
  assert (Hok : forall m, m ∈ [second; first] -> handler_throws m = false).
  { intros m [->|[->|Hm%elem_of_nil]%elem_of_cons]%elem_of_cons; done. }
  assert (Hnd : NoDup (map (fun m => prop m "id") [second; first])).
  { apply NoDup_cons. split; [|apply NoDup_singleton].
    intros Hin%list_elem_of_singleton. discriminate Hin. }
  split; [|split; [|reflexivity]].
  - apply (Hany [second; first] first 1%Z 0 Hok Hnd); [|reflexivity..].
    apply elem_of_cons. right. apply list_elem_of_singleton. reflexivity.
  - apply (Hany [second; first] second 2%Z 1 Hok Hnd); [|reflexivity..].
    apply list_elem_of_here.
Defined.

(** ** Closing with requests outstanding *)

(** C5, as the code has it. [close()] only ends the transport: a request
    that is pending when the session closes keeps its entry in [pending] and
    its promise stays unsettled (it is not rejected), so an [await] on it
    does not return unless a matching response is still delivered. *)
Theorem close_leaves_requests_pending (s : Session) (id : Z) (h : nat) :
  reachable s ->
  pending s !! id = Some h ->
  pending (close s) !! id = Some h
  /\ promises (close s) !! h = Some PPending
  /\ await h (close s) [] = (None, close s, []).
Proof.
  intros Hr Hp. destruct (reachable_inv s Hr) as [_ _ Hw _].
  split; [done|]. split; [simpl; eauto|].
  simpl. by rewrite (Hw _ _ Hp).
Qed.

Lemma close_leaves_requests_pending_witness :
  let s := (send "Page.captureScreenshot" JUndefined new_session).2 in
  pending (close s) !! 1%Z = Some 0
  /\ promises (close s) !! 0 = Some PPending
  /\ await 0 (close s) [] = (None, close s, []).
Proof.
  intros s.
  apply (close_leaves_requests_pending s 1%Z 0).
  - repeat constructor.
  - reflexivity.
Defined.

(** The claim as the specification words it (pending requests are rejected
    when the session closes) fails for one outstanding request. *)
Lemma close_rejects_pending_counterexample :
  ~ (forall (s : Session) (id : Z) (h : nat),
        reachable s -> pending s !! id = Some h ->
        exists e, promises (close s) !! h = Some (Settled (Rejected e))).
Proof.
  intros Hclaim.
  destruct (Hclaim (send "Page.captureScreenshot" JUndefined new_session).2
              1%Z 0) as [e He].
  - repeat constructor.
  - reflexivity.
  - discriminate He.
Qed.

(** ** Sessions are closed on every exit path *)

Section Scoped.

Context {A : Type}.

Lemma count_snoc (f : event -> bool) (tr : list event) (ev : event) :
  length (List.filter f (tr ++ [ev]))
  = length (List.filter f tr) + (if f ev then 1 else 0).
Proof.
  rewrite List.filter_app, length_app. simpl. by destruct (f ev).
Qed.

Lemma quiet_ret (a : A) : quiet (mret a).
Proof. intros w r w' [= <- <-]. done. Qed.

Lemma quiet_throw (e : exn) : quiet (@throw A e).
Proof. intros w r w' [= <- <-]. done. Qed.

Lemma quiet_bind {B : Type} (m : M B) (k : B -> M A) :
  quiet m -> (forall b, quiet (k b)) -> quiet (m ≫= k).
Proof.
  intros Hm Hk w r w'. unfold mbind, M_bind.
  destruct (m w) as [[b|e|] w1] eqn:E; destruct (Hm _ _ _ E) as [Ho Hc].
  - intros Hkb. destruct (Hk _ _ _ _ Hkb). split; congruence.
  - intros [= <- <-]. done.
  - intros [= <- <-]. done.
Qed.

Lemma quiet_closes_once (m : M A) : quiet m -> closes_once m.
Proof. intros Hm w r w' E. left. eauto. Qed.

Lemma closes_once_bind {B : Type} (m : M B) (k : B -> M A) :
  quiet m -> (forall b, closes_once (k b)) -> closes_once (m ≫= k).
Proof.
  intros Hm Hk w r w'. unfold mbind, M_bind.
  destruct (m w) as [[b|e|] w1] eqn:E; destruct (Hm _ _ _ E) as [Ho Hc].
  - intros Hkb. destruct (Hk _ _ _ _ Hkb) as [[? ?]|(? & ? & ?)].
    + left. split; congruence.
    + right. rewrite <- Ho, <- Hc. done.
  - intros [= <- <-]. by left.
  - intros [= <- <-]. by left.
Qed.

(** The shape every command has once it holds a target: connect, then
    [try { body } finally { client.close() }]. *)
Lemma connect_try_finally (target : Target) (body : M A) :
  quiet body ->
  closes_once (connectToTarget target;; try_finally body client_close).
Proof.
  intros Hb w r w'. unfold mbind, M_bind, connectToTarget.
  destruct (webSocketDebuggerUrl target) as [[|c wsUrl]|];
    try (intros [= <- <-]; by left).
  destruct (connect_reply (env w));
    try (intros [= <- <-]; by left).
  set (w0 := {| env := env w; session := new_session; inbox := inbox w;
                trace := trace w ++ [EvOpen (c :: wsUrl)] |}).
  assert (Ho0 : opens w0 = S (opens w))
    by (unfold opens, w0; simpl; rewrite count_snoc; simpl; lia).
  assert (Hc0 : closes w0 = closes w)
    by (unfold closes, w0; simpl; rewrite count_snoc; simpl; lia).
  unfold try_finally, client_close.
  destruct (body w0) as [[a|e|] w1] eqn:E; destruct (Hb _ _ _ E) as [Ho Hc];
    intros [= <- <-]; right; unfold opens, closes in *; simpl;
    rewrite ?count_snoc, ?last_snoc; simpl; (split; [lia|]);
    (split; [lia|]); done.
Qed.

End Scoped.

Lemma quiet_emit (ev : event) :
  is_open ev = false -> is_close ev = false -> quiet (emit ev).
Proof.
  intros Ho Hc w r w' [= <- <-]. unfold opens, closes. simpl.
  rewrite !count_snoc, Ho, Hc. lia.
Qed.

Lemma quiet_get_prop v k : quiet (get_prop v k).
Proof.
  unfold get_prop. destruct (nullish v); [apply quiet_throw|apply quiet_ret].
Qed.

Lemma quiet_client_send method params : quiet (client_send method params).
Proof.
  intros w r w'. unfold client_send.
  destruct (send method params (session w)) as [[h envelope] s1].
  destruct (await h s1 (inbox w)) as [[o s2] rest].
  destruct o as [[v|e]|]; intros [= <- <-]; unfold opens, closes; simpl;
    rewrite !count_snoc; simpl; lia.
Qed.

Lemma quiet_getTargets : quiet getTargets.
Proof.
  intros w r w'. unfold getTargets.
  destruct (list_reply (env w)); intros [= <- <-]; unfold opens, closes;
    simpl; rewrite !count_snoc; simpl; lia.
Qed.

Lemma quiet_findEditorTarget : quiet findEditorTarget.
Proof.
  apply quiet_bind; [apply quiet_getTargets|intros; apply quiet_ret].
Qed.

Lemma quiet_value_or result fallback : quiet (value_or result fallback).
Proof.
  apply quiet_bind; [apply quiet_get_prop|intros; apply quiet_ret].
Qed.

Lemma quiet_type_chars chars : quiet (type_chars chars).
Proof.
  induction chars as [|char rest IH]; simpl; [apply quiet_ret|].
  repeat (apply quiet_bind; [apply quiet_client_send|intros _]). done.
Qed.

Create HintDb quiet.

#[local] Hint Resolve quiet_ret quiet_throw quiet_get_prop quiet_client_send
  quiet_findEditorTarget quiet_value_or quiet_type_chars : quiet.

Ltac quiet_body :=
  repeat first
    [ apply quiet_bind; [solve [auto with quiet]|intros ?]
    | apply quiet_bind; [apply quiet_emit; reflexivity|intros ?]
    | solve [auto with quiet]
    | progress cbv zeta
    | match goal with
      | |- quiet (if ?b then _ else _) => destruct b
      | |- quiet (match ?v with _ => _ end) => destruct v
      end ].

(** With or without a target, a command keeps the discipline. *)
Lemma run_closes_once (c : command) : closes_once (run c).
Proof.
  destruct c; simpl;
    (apply closes_once_bind; [apply quiet_findEditorTarget|]);
    intros [target|];
    try (apply quiet_closes_once; first [apply quiet_throw|apply quiet_ret]);
    apply connect_try_finally; quiet_body.
Qed.

(** C2. Every facade operation that opened a session has called [close()]
    on it exactly once when it returns or throws, whatever the targets, the
    connection and the incoming messages were: its requests may be answered
    with results, with protocol errors, or with values the operation chokes
    on. The call is the last thing the operation does on the transport, and
    the socket is closed when the operation is left. *)
Theorem command_closes_session_exactly_once
    (c : command) (e : Env) (incoming : list json)
    (r : completion json) (w : World) :
  run c (initial e incoming) = (r, w) ->
  opens w <> 0 ->
  r <> Stuck ->
  opens w = 1 /\ closes w = 1
  /\ last (trace w) = Some EvClose /\ ws_open (session w) = false.
Proof.
  intros Hrun Hopen Hexit.
  destruct (run_closes_once c _ _ _ Hrun) as [[Ho Hc]|(Ho & Hc & Hend)].
  - unfold opens in *. simpl in *. lia.
  - destruct (Hend Hexit) as [Hclosed Hlast].
    unfold opens, closes in *. simpl in *. split; [done|].
    split; [by destruct r|done].
Qed.

(** A protocol error as the answer to the only request of
    [getPageMetrics]. *)
Lemma command_closes_session_exactly_once_witness :
  let incoming :=
    [obj [("id", JNum 1); ("error", obj [("message", str "boom")])]] in
  let out := run GetPageMetrics (initial sample_env incoming) in
  out.1 = Throw (JsError "Error" (lit "boom"))
  /\ opens out.2 = 1 /\ closes out.2 = 1
  /\ last (trace out.2) = Some EvClose /\ ws_open (session out.2) = false.
Proof.
  intros incoming out. split; [reflexivity|].
  apply (command_closes_session_exactly_once GetPageMetrics sample_env
           incoming out.1 out.2).
  - reflexivity.
  - vm_compute. discriminate.
  - vm_compute. discriminate.
Defined.

(** The three kinds of exit of one command: a result, a protocol error,
    and an exception raised on a response without result. *)
Lemma captureScreenshot_exits :
  let ok := [obj [("id", JNum 1); ("result", obj [("data", str "iVBOR")])]] in
  let err := [obj [("id", JNum 1); ("error", obj [("message", str "no")])]] in
  let bad := [obj [("id", JNum 1)]] in
  let go incoming :=
    run (CaptureScreenshot JUndefined) (initial sample_env incoming) in
  ((go ok).1 = Normal (str "iVBOR") /\ closes (go ok).2 = 1)
  /\ ((go err).1 = Throw (JsError "Error" (lit "no"))
      /\ closes (go err).2 = 1)
  /\ ((go bad).1 = Throw (cannot_read JUndefined "data")
      /\ closes (go bad).2 = 1)
  /\ ((go []).1 = Stuck /\ closes (go []).2 = 0).
Proof. vm_compute. tauto. Qed.

(** ** Availability *)

(** C6. [isAvailable] returns in every world, and never throws. When the
    version query gives a record, the result is [available: true] with the
    [Browser] field of that record. When the query fails, the result is
    [available: false] with the message of that failure as [error]: the
    message of the exception of the fetch when the endpoint cannot be
    reached, and the message of the TypeError of reading [Browser] when the
    endpoint answers [null]. *)
Theorem isAvailable_never_raises (w : World) :
  exists v w',
    isAvailable w = (Normal v, w')
    /\ (forall version,
          version_reply (env w) = inr version -> nullish version = false ->
          v = obj [("available", JBool true);
                   ("browser", prop version "Browser")])
    /\ (forall name message,
          version_reply (env w) = inl (JsError name message) ->
          v = obj [("available", JBool false); ("error", JStr message)])
    /\ (version_reply (env w) = inr JNull ->
        v = obj [("available", JBool false);
                 ("error",
                  JStr (lit "Cannot read properties of null (reading 'Browser')"))])
    /\ (version_reply (env w) = inr JUndefined ->
        v = obj [("available", JBool false);
                 ("error",
                  JStr (lit "Cannot read properties of undefined (reading 'Browser')"))]).
Proof.
  unfold isAvailable, try_catch, mbind, M_bind, getVersion, get_prop.
  destruct (version_reply (env w)) as [[name message]|version].
  - eexists _, _. split; [reflexivity|].
    repeat split; try discriminate. by intros ? ? [= <- <-].
  - destruct (nullish version) eqn:Hnull.
    + eexists _, _. split; [reflexivity|]. repeat split.
      * intros ? [= <-]. by rewrite Hnull.
      * discriminate.
      * by intros [= ->].
      * by intros [= ->].
    + eexists _, _. split; [reflexivity|]. repeat split.
      * by intros ? [= <-].
      * discriminate.
      * intros [= ->]. discriminate Hnull.
      * intros [= ->]. discriminate Hnull.
Qed.

(** The discovery endpoint refusing the connection: the reason reported is
    the message of the failed fetch. *)
Lemma isAvailable_never_raises_witness :
  let down :=
    {| list_reply := inl (JsError "TypeError" (lit "fetch failed"));
       version_reply := inl (JsError "TypeError" (lit "fetch failed"));
       connect_reply := ConnSilent |} in
  (isAvailable (initial down [])).1
  = Normal (obj [("available", JBool false);
                 ("error", JStr (lit "fetch failed"))]).
Proof.
  intros down.
  destruct (isAvailable_never_raises (initial down []))
    as (v & w' & Hrun & _ & Herr & _).
  rewrite Hrun. cbn [fst]. f_equal.
  apply (Herr "TypeError"%string (lit "fetch failed")). reflexivity.
Defined.

(** The endpoint answering with its version record, and with [null]. *)
Lemma isAvailable_answers :
  (isAvailable (initial sample_env [])).1
  = Normal (obj [("available", JBool true);
                 ("browser", JStr (lit "Chrome/120.0"))])
  /\ (isAvailable
        (initial {| list_reply := list_reply sample_env;
                    version_reply := inr JNull;
                    connect_reply := ConnOpen |} [])).1
     = Normal (obj [("available", JBool false);
                    ("error",
                     JStr (lit "Cannot read properties of null (reading 'Browser')"))]).
Proof. split; reflexivity. Qed.

(** ** Screenshot defaults *)

(** C10. [captureScreenshot] sends one request: number 1 of its session,
    with method [Page.captureScreenshot] and with parameters whose [format]
    and [quality] are taken from the options only when they are truthy: any
    falsy [format] (absent, [null], the empty string, ...) goes out as
    ["png"] and any falsy [quality] (absent, [0], ...) as [80];
    [captureBeyondViewport] is [false]. *)
Theorem captureScreenshot_defaults_on_falsy
    (options : json) (e : Env) (incoming : list json)
    (targets : list Target) (target : Target) (c : N) (wsUrl : list N) :
  list_reply e = inr targets ->
  selectEditorTarget targets = Some target ->
  webSocketDebuggerUrl target = Some (c :: wsUrl) ->
  connect_reply e = ConnOpen ->
  options <> JNull ->
  let format := prop options "format" in
  let quality := prop options "quality" in
  exists envelope,
    requests (trace (captureScreenshot options (initial e incoming)).2)
    = [envelope]
    /\ prop envelope "id" = JNum 1
    /\ prop envelope "method" = JStr (lit "Page.captureScreenshot")
    /\ prop (prop envelope "params") "format"
       = (if truthy format then format else JStr (lit "png"))
    /\ prop (prop envelope "params") "quality"
       = (if truthy quality then quality else JNum 80)
    /\ prop (prop envelope "params") "captureBeyondViewport" = JBool false.
Proof.
  intros Hlist Hsel Hurl Hconn Hnull format quality.
  unfold captureScreenshot, findEditorTarget, getTargets, connectToTarget,
    try_finally, client_close, client_send, get_prop, mbind, M_bind, mret,
    M_ret.
  simpl. rewrite Hlist. simpl. rewrite Hsel, Hurl. simpl. rewrite Hconn.
  set (o := match options with JUndefined => JObj [] | _ => options end).
  assert (Ho : nullish o = false) by (subst o; by destruct options).
  assert (Hf : prop o "format" = format) by (subst o; by destruct options).
  assert (Hq : prop o "quality" = quality) by (subst o; by destruct options).
  rewrite Ho. simpl. rewrite Hf, Hq.
  unfold js_or.
  destruct (await 0 _ incoming) as [[[[v|err]|] s2] rest]; simpl;
    try destruct (nullish v); simpl;
    (eexists; split; [reflexivity|]; by repeat split).
Qed.

(** [quality: 0] goes out as 80 and the empty [format] as "png". *)
Lemma captureScreenshot_defaults_on_falsy_witness :
  let options := obj [("quality", JNum 0); ("format", JStr [])] in
  exists envelope,
    requests (trace (captureScreenshot options (initial sample_env [])).2)
    = [envelope]
    /\ prop envelope "id" = JNum 1
    /\ prop envelope "method" = JStr (lit "Page.captureScreenshot")
    /\ prop (prop envelope "params") "format" = JStr (lit "png")
    /\ prop (prop envelope "params") "quality" = JNum 80
    /\ prop (prop envelope "params") "captureBeyondViewport" = JBool false.
Proof.
  intros options.
  apply (captureScreenshot_defaults_on_falsy options sample_env []
           [launchpad_window; editor_window] editor_window
           119%N (lit "s://localhost:9222/devtools/page/A1")).
  - reflexivity.
  - reflexivity.
  - reflexivity.
  - reflexivity.
  - discriminate.
Defined.

(** A truthy option is passed through. *)
Lemma captureScreenshot_keeps_truthy :
  let options := obj [("quality", JNum 55); ("format", str "jpeg")] in
  trace (captureScreenshot options (initial sample_env [])).2
  = [EvFetch "/json/list";
     EvOpen (lit "ws://localhost:9222/devtools/page/A1");
     EvSend (frame 1 "Page.captureScreenshot"
               (obj [("format", str "jpeg"); ("quality", JNum 55);
                     ("captureBeyondViewport", JBool false)]))].
Proof. reflexivity. Qed.

(** ** Target selection *)

Lemma find_first {T : Type} (f : T -> bool) (before : list T) (x : T)
    (after : list T) :
  f x = true -> (forall y, y ∈ before -> f y = false) ->
  List.find f (before ++ x :: after) = Some x.
Proof.
  intros Hx. induction before as [|y before IH]; intros Hb; simpl.
  - by rewrite Hx.
  - rewrite (Hb y) by apply list_elem_of_here.
    apply IH. intros z Hz. apply Hb. by apply list_elem_of_further.
Qed.

Lemma find_nowhere {T : Type} (f : T -> bool) (l : list T) :
  (forall y, y ∈ l -> f y = false) -> List.find f l = None.
Proof.
  induction l as [|y l IH]; intros Hl; simpl; [done|].
  rewrite (Hl y) by apply list_elem_of_here.
  apply IH. intros z Hz. apply Hl. by apply list_elem_of_further.
Qed.

Lemma is_editor_spec (t : Target) :
  is_editor t = true <->
  type_ t = lit "page"
  /\ includes (title t) (lit "Antigravity") = true
  /\ includes (title t) (lit "Launchpad") = false
  /\ includes (url t) (lit "devtools") = false.
Proof.
  unfold is_editor, is_page.
  rewrite !andb_true_iff, !negb_true_iff, bool_decide_eq_true. tauto.
Qed.

Lemma run_without_target (c : command) (e : Env) (incoming : list json)
    (targets : list Target) :
  list_reply e = inr targets ->
  selectEditorTarget targets = None ->
  (run c (initial e incoming)).1
  = if c is GetWorkspacePath then Normal JNull else Throw no_editor_target.
Proof.
  intros Hlist Hsel.
  destruct c; simpl;
    unfold captureScreenshot, getPageMetrics, injectCommand, injectAndSubmit,
      focusInput, getChatMessages, getAgentPanelContent, getConversationText,
      getWorkspacePath, findEditorTarget, getTargets, mbind, M_bind, mret,
      M_ret;
    simpl; rewrite Hlist; simpl; by rewrite Hsel.
Qed.

(** C3, as the code has it. [findEditorTarget] yields the first target that
    is a page whose title contains "Antigravity" and not "Launchpad" and
    whose URL does not contain "devtools"; when there is none, the first
    target of type "page"; and nothing when the list holds no page, in which
    case every facade command throws "No editor target found", except
    [getWorkspacePath], which returns [null].  Of "Antigravity - Launchpad"
    and "MyProject - Antigravity" the latter is selected. *)
Theorem findEditorTarget_selection (targets : list Target) :
  (forall before t after,
      targets = before ++ t :: after ->
      is_editor t = true ->
      (forall x, x ∈ before -> is_editor x = false) ->
      selectEditorTarget targets = Some t)
  /\ (forall before t after,
        (forall x, x ∈ targets -> is_editor x = false) ->
        targets = before ++ t :: after ->
        is_page t = true ->
        (forall x, x ∈ before -> is_page x = false) ->
        selectEditorTarget targets = Some t)
  /\ ((forall x, x ∈ targets -> is_page x = false) ->
      selectEditorTarget targets = None
      /\ forall (c : command) (e : Env) (incoming : list json),
           list_reply e = inr targets ->
           (run c (initial e incoming)).1
           = if c is GetWorkspacePath then Normal JNull
             else Throw no_editor_target)
  /\ (forall t,
        is_editor t = true <->
        type_ t = lit "page"
        /\ includes (title t) (lit "Antigravity") = true
        /\ includes (title t) (lit "Launchpad") = false
        /\ includes (url t) (lit "devtools") = false)
  /\ selectEditorTarget [launchpad_window; editor_window] = Some editor_window
  /\ selectEditorTarget [editor_window; launchpad_window] = Some editor_window.
Proof.
  split; [|split; [|split; [|split; [|split]]]].
  - intros before t after -> Ht Hb. unfold selectEditorTarget.
    by rewrite (find_first is_editor before t after).
  - intros before t after Hnone -> Ht Hb. unfold selectEditorTarget.
    rewrite (find_nowhere is_editor) by done.
    by apply find_first.
  - intros Hnone.
    assert (Hsel : selectEditorTarget targets = None).
    { unfold selectEditorTarget.
      rewrite (find_nowhere is_editor), (find_nowhere is_page); [done..|].
      intros y Hy. unfold is_editor. by rewrite (Hnone y Hy). }
    split; [done|]. intros c e incoming Hlist.
    by apply run_without_target with targets.
  - apply is_editor_spec.
  - reflexivity.
  - reflexivity.
Qed.

(** Without any page among the targets, the commands that throw and the one
    that does not. *)
Lemma findEditorTarget_selection_witness :
  (run GetChatMessages (initial pageless_env [])).1 = Throw no_editor_target
  /\ (run (CaptureScreenshot JUndefined) (initial pageless_env [])).1
     = Throw no_editor_target
  /\ (run GetWorkspacePath (initial pageless_env [])).1 = Normal JNull.
Proof.
  destruct (findEditorTarget_selection [service_worker])
    as (_ & _ & Hnone & _).
  destruct Hnone as [_ Hrun].
  { intros x Hx%list_elem_of_singleton. by subst x. }
  split; [|split].
  - apply (Hrun GetChatMessages pageless_env []). reflexivity.
  - apply (Hrun (CaptureScreenshot JUndefined) pageless_env []). reflexivity.
  - apply (Hrun GetWorkspacePath pageless_env []). reflexivity.
Defined.

(** The claim as the specification words it (whichever command calls,
    a list without pages makes it signal the missing editor target) fails
    for [getWorkspacePath] on the empty list. *)
Lemma no_page_always_signals_counterexample :
  ~ (forall (c : command) (e : Env) (incoming : list json)
            (targets : list Target),
        list_reply e = inr targets ->
        (forall x, x ∈ targets -> is_page x = false) ->
        (run c (initial e incoming)).1 = Throw no_editor_target).
Proof.
  intros Hclaim.
  specialize (Hclaim GetWorkspacePath
                {| list_reply := inr [];
                   version_reply := inr JNull;
                   connect_reply := ConnOpen |} [] []).
  simpl in Hclaim.
  assert (Hthrow : @Normal json JNull = Throw no_editor_target).
  { apply Hclaim; [reflexivity|]. intros x Hx. by apply elem_of_nil in Hx. }
  discriminate Hthrow.
Qed.

(** ** Strings: trimming and searching *)

Section Strings.

Implicit Types (s u p : list N) (c : N).

Lemma trimStart_head s :
  trimStart s = [] \/ exists c u, trimStart s = c :: u /\ is_space c = false.
Proof.
  induction s as [|c s IH]; simpl; [by left|].
  destruct (is_space c) eqn:Hc; [done|]. right. by exists c, s.
Qed.

Lemma trimStart_snoc s c :
  is_space c = false -> trimStart (s ++ [c]) = trimStart s ++ [c].
Proof.
  intros Hc. induction s as [|d s IH]; simpl; [by rewrite Hc|].
  by destruct (is_space d).
Qed.

Lemma trimEnd_cons c u :
  is_space c = false -> trimEnd (c :: u) = c :: trimEnd u.
Proof.
  intros Hc. unfold trimEnd. simpl.
  by rewrite trimStart_snoc, rev_app_distr.
Qed.

Lemma trimStart_idem s : trimStart (trimStart s) = trimStart s.
Proof.
  destruct (trimStart_head s) as [->|(c & u & -> & Hc)]; [done|].
  simpl. by rewrite Hc.
Qed.

Lemma trimEnd_idem s : trimEnd (trimEnd s) = trimEnd s.
Proof.
  unfold trimEnd. by rewrite rev_involutive, trimStart_idem.
Qed.

(** [text.trim().trim()] is [text.trim()]. *)
Lemma trim_idem s : trim (trim s) = trim s.
Proof.
  unfold trim.
  destruct (trimStart_head s) as [->|(c & u & -> & Hc)]; [done|].
  rewrite trimEnd_cons by done. simpl. rewrite Hc.
  by rewrite <- trimEnd_cons, trimEnd_idem.
Qed.

(** The white space [trimStart] removes. *)
Lemma trimStart_split s :
  exists ws, s = ws ++ trimStart s /\ Forall (fun c => is_space c = true) ws.
Proof.
  induction s as [|c s (ws & Hs & Hws)]; simpl; [by exists []|].
  destruct (is_space c) eqn:Hc; [|by exists []].
  exists (c :: ws). split; [simpl; congruence|by constructor].
Qed.

(** The white space [trimEnd] removes. *)
Lemma trimEnd_split s :
  exists ws, s = trimEnd s ++ ws /\ Forall (fun c => is_space c = true) ws.
Proof.
  destruct (trimStart_split (rev s)) as (ws & Hs & Hws).
  exists (rev ws). split.
  - unfold trimEnd. rewrite <- rev_app_distr, <- Hs. by rewrite rev_involutive.
  - by apply Forall_rev.
Qed.

Lemma includes_ci_search s p :
  includes_ci s p = search (starts_with eq_ci p) s.
Proof.
  unfold includes_ci. generalize 0.
  induction s as [|c s IH]; intros k; simpl.
  - by destruct (starts_with eq_ci p []).
  - destruct (starts_with eq_ci p (c :: s)); [done|]. apply IH.
Qed.

Lemma is_space_cases c :
  is_space c = true ->
  (9 <= c <= 13 \/ c = 32 \/ c = 160 \/ c = 5760 \/ 8192 <= c <= 8202
   \/ c = 8232 \/ c = 8233 \/ c = 8239 \/ c = 8287 \/ c = 12288
   \/ c = 65279)%N.
Proof.
  unfold is_space.
  rewrite !orb_true_iff, !andb_true_iff, !N.eqb_eq, !N.leb_le. tauto.
Qed.

Lemma lower_letter_solid a : is_lower_ascii a = true -> solid a.
Proof.
  intros Ha c Hc%is_space_cases. unfold eq_ci, fold_case. rewrite Ha.
  unfold is_lower_ascii in *.
  apply andb_true_iff in Ha as [Ha1%N.leb_le Ha2%N.leb_le].
  assert (Hcl : ((97 <=? c) && (c <=? 122))%N = false).
  { apply andb_false_iff. rewrite !N.leb_gt. lia. }
  rewrite Hcl. apply N.eqb_neq. lia.
Qed.

Lemma search_trimStart p a s :
  solid a -> search (starts_with eq_ci (a :: p)) s = true ->
  search (starts_with eq_ci (a :: p)) (trimStart s) = true.
Proof.
  intros Ha. induction s as [|c s IH]; [done|].
  simpl trimStart. destruct (is_space c) eqn:Hc; [|done].
  simpl. rewrite (Ha c Hc). simpl. exact IH.
Qed.

Lemma starts_with_snoc p u c z :
  last p = Some z -> eq_ci z c = false ->
  starts_with eq_ci p (u ++ [c]) = true -> starts_with eq_ci p u = true.
Proof.
  intros Hz Hzc. revert u.
  induction p as [|a p IH]; intros u; [done|].
  destruct p as [|b p].
  - simpl in Hz. injection Hz as ->.
    destruct u as [|d u]; simpl; [|done].
    by rewrite Hzc.
  - destruct u as [|d u]; simpl.
    + rewrite andb_false_r. done.
    + intros [Hd Hrest]%andb_true_iff. rewrite Hd. simpl.
      apply (IH Hz u Hrest).
Qed.

Lemma search_snoc p u c z :
  last p = Some z -> eq_ci z c = false ->
  search (starts_with eq_ci p) (u ++ [c]) = true ->
  search (starts_with eq_ci p) u = true.
Proof.
  intros Hz Hzc.
  assert (Hnil : starts_with eq_ci p [] = false)
    by (destruct p; [discriminate Hz|done]).
  induction u as [|d u IH]; simpl.
  - rewrite Hnil, !orb_false_r.
    intros H. apply (starts_with_snoc p [] c z Hz Hzc) in H. congruence.
  - intros [H|H]%orb_true_iff.
    + apply (starts_with_snoc p (d :: u) c z Hz Hzc) in H.
      simpl in H. by rewrite H.
    + rewrite (IH H). apply orb_true_r.
Qed.

Lemma search_strip p u ws z :
  last p = Some z -> solid z ->
  Forall (fun c => is_space c = true) ws ->
  search (starts_with eq_ci p) (u ++ ws) = true ->
  search (starts_with eq_ci p) u = true.
Proof.
  intros Hz Hsolid Hws. revert u.
  induction ws as [|c ws IH] using rev_ind; intros u.
  - by rewrite app_nil_r.
  - apply Forall_app in Hws as [Hws Hc].
    apply Forall_inv in Hc.
    rewrite app_assoc. intros H.
    apply IH; [done|].
    by apply (search_snoc p (u ++ ws) c z Hz (Hsolid c Hc)).
Qed.

(** A literal that begins and ends with solid units is found in the
    trimmed text as soon as it is found in the text. *)
Lemma includes_ci_trim s a p z :
  solid a -> last (a :: p) = Some z -> solid z ->
  includes_ci s (a :: p) = true -> includes_ci (trim s) (a :: p) = true.
Proof.
  intros Ha Hz Hsolid. rewrite !includes_ci_search. intros H.
  apply (search_trimStart p a s Ha) in H.
  destruct (trimEnd_split (trimStart s)) as (ws & Hsplit & Hws).
  unfold trim. rewrite Hsplit in H.
  by apply (search_strip (a :: p) _ ws z).
Qed.

End Strings.

(** ** The classifier *)

Lemma existsb_blacklist_false (text : list N) :
  existsb (fun pattern => pattern text) blacklist = false <->
  forall pattern, In pattern blacklist -> pattern text = false.
Proof.
  split.
  - intros Hex pattern Hin.
    destruct (pattern text) eqn:Hp; [|done].
    rewrite <- Hex. symmetry. apply existsb_exists. by exists pattern.
  - intros Hall. apply not_true_is_false.
    intros (pattern & Hin & Hp)%existsb_exists.
    rewrite (Hall pattern Hin) in Hp. discriminate Hp.
Qed.

Lemma isBlacklisted_by_pattern (text : list N) (pattern : list N -> bool) :
  In pattern blacklist -> pattern (trim text) = true ->
  isBlacklisted text = true.
Proof.
  intros Hin Hp. unfold isBlacklisted.
  destruct (_ <? 20); [done|]. destruct (_ <? 4); [done|].
  apply existsb_exists. by exists pattern.
Qed.

Lemma workflows_blacklisted (text : list N) :
  includes_ci text (lit "workflows") = true -> isBlacklisted text = true.
Proof.
  intros H. apply (isBlacklisted_by_pattern text (contains_ci "workflows")).
  - unfold blacklist. do 15 right. by left.
  - apply (includes_ci_trim text 119%N (lit "orkflows") 115%N);
      [by apply lower_letter_solid|done|by apply lower_letter_solid|done].
Qed.

Lemma mentions_blacklisted (text : list N) :
  includes_ci text (lit "mentions") = true -> isBlacklisted text = true.
Proof.
  intros H. apply (isBlacklisted_by_pattern text (contains_ci "mentions")).
  - unfold blacklist. do 16 right. by left.
  - apply (includes_ci_trim text 109%N (lit "entions") 115%N);
      [by apply lower_letter_solid|done|by apply lower_letter_solid|done].
Qed.

(** C9. A text that contains "workflows" or "mentions" anywhere, in any
    letter case, is blacklisted, so the element that shows it is not
    accepted and adds nothing to the messages. *)
Theorem unanchored_patterns_reject_prose
    (raw cls : list N) (now : nat -> list N) (messages : list ChatMessage) :
  includes_ci raw (lit "workflows") = true
  \/ includes_ci raw (lit "mentions") = true ->
  let el := {| innerText := Some raw; className := cls |} in
  isBlacklisted raw = true
  /\ accepts el = false
  /\ visit now messages el = messages.
Proof.
  intros Hin el.
  assert (Hb : forall t,
             includes_ci t (lit "workflows") = true
             \/ includes_ci t (lit "mentions") = true ->
             isBlacklisted t = true)
    by (intros t [?|?];
        [by apply workflows_blacklisted|by apply mentions_blacklisted]).
  assert (Htrim : isBlacklisted (trim raw) = true).
  { apply Hb. destruct Hin as [H|H]; [left|right].
    - apply (includes_ci_trim raw 119%N (lit "orkflows") 115%N);
        [by apply lower_letter_solid|done|by apply lower_letter_solid|done].
    - apply (includes_ci_trim raw 109%N (lit "entions") 115%N);
        [by apply lower_letter_solid|done|by apply lower_letter_solid|done]. }
  assert (Hacc : accepts el = false).
  { unfold accepts, accepts_text. simpl. rewrite Htrim. simpl.
    by rewrite andb_false_r. }
  split; [by apply Hb|]. split; [done|].
  unfold visit. by rewrite Hacc.
Qed.

(** Long prose that merely mentions the word. *)
Lemma unanchored_patterns_reject_prose_witness :
  let raw :=
    lit "I refactored the deploy scripts. The CI Workflows now run twice as fast as before." in
  let el := {| innerText := Some raw; className := [] |} in
  isBlacklisted raw = true /\ accepts el = false
  /\ visit (fun _ => []) [] el = [].
Proof.
  intros raw el.
  apply (unanchored_patterns_reject_prose raw [] (fun _ => []) []).
  left. reflexivity.
Defined.

(** C4, as the code has it. The text of an element, trimmed, is accepted if
    and only if it is longer than 30 and shorter than 5000 code units, has
    at least 4 pieces between single spaces, matches no entry of the
    blacklist, contains one of [.], [!], [?], and has more than 5 pieces
    between runs of white space.  "3:45 AM" and "Submit" are rejected and
    the sentence about the malformed input is accepted. *)
Theorem classifier_acceptance (raw cls : list N) :
  let text := trim raw in
  (accepts {| innerText := Some raw; className := cls |} = true <->
   30 < length text < 5000
   /\ 4 <= length (split_unit 32 text)
   /\ (forall pattern, In pattern blacklist -> pattern text = false)
   /\ hasProperSentences text = true
   /\ 5 < wordCount text)
  /\ accepts {| innerText := Some (lit "3:45 AM"); className := cls |} = false
  /\ accepts {| innerText := Some (lit "Submit"); className := cls |} = false
  /\ accepts {| innerText := Some prose; className := cls |} = true.
Proof.
  intros text. split; [|by vm_compute].
  subst text. unfold accepts, accepts_text, isBlacklisted. simpl.
  rewrite trim_idem. set (text := trim raw).
  rewrite <- existsb_blacklist_false.
  rewrite !andb_true_iff, !negb_true_iff, !Nat.ltb_lt.
  destruct (Nat.ltb_spec (length text) 20) as [H20|H20].
  { split; [intros ((((_ & [=]) & _) & _) & _)|lia]. }
  destruct (Nat.ltb_spec (length (split_unit 32 text)) 4) as [H4|H4].
  { split; [intros ((((_ & [=]) & _) & _) & _)|lia]. }
  split.
  - intros ((((_ & Hb) & H30) & H5000) & Hs & Hw). repeat split; auto; lia.
  - intros ((H30 & H5000) & _ & Hb & Hs & Hw). repeat split; auto.
    destruct text; [simpl in H30; lia|done].
Qed.

(** The claim as the specification words it (20 characters, 4 words, no
    blacklist entry, punctuation and more than 5 words are enough) fails on
    a sentence of 24 characters. *)
Lemma classifier_acceptance_counterexample :
  ~ (forall raw cls : list N,
        let text := trim raw in
        accepts {| innerText := Some raw; className := cls |} = true <->
        20 <= length text
        /\ 4 <= length (split_unit 32 text)
        /\ (forall pattern, In pattern blacklist -> pattern text = false)
        /\ hasProperSentences text = true
        /\ 5 < wordCount text).
Proof.
  intros Hclaim.
  destruct (Hclaim short_prose []) as [_ Hacc].
  assert (Habs : accepts {| innerText := Some short_prose; className := [] |}
                 = true).
  { apply Hacc. split; [vm_compute; lia|]. split; [vm_compute; lia|].
    split; [|split; [reflexivity|vm_compute; lia]].
    apply existsb_blacklist_false. reflexivity. }
  discriminate Habs.
Qed.

(** ** The selector loop *)

Lemma foldl_visit (now : nat -> list N) (els : list Element)
    (messages : list ChatMessage) :
  foldl (visit now) messages els
  = messages
    ++ imap (fun k el => message_of (now (length messages + k)) el)
         (List.filter accepts els).
Proof.
  revert messages.
  induction els as [|el els IH]; intros messages; simpl.
  - by rewrite app_nil_r.
  - unfold visit at 2. destruct (accepts el); simpl; [|apply IH].
    rewrite IH, <- app_assoc, Nat.add_0_r. simpl. do 2 f_equal.
    apply imap_ext. intros k x _. simpl. rewrite length_app. simpl.
    do 2 f_equal. lia.
Qed.

Lemma foldl_visit_nil (now : nat -> list N) (els : list Element) :
  foldl (visit now) [] els = accepted now els.
Proof. by rewrite foldl_visit. Qed.

Lemma accepted_nil (now : nat -> list N) (els : list Element) :
  (forall el, el ∈ els -> accepts el = false) -> accepted now els = [].
Proof.
  intros Hall. unfold accepted.
  replace (List.filter accepts els) with (@nil Element); [done|].
  induction els as [|el els IH]; simpl; [done|].
  rewrite (Hall el) by apply list_elem_of_here.
  apply IH. intros x Hx. apply Hall. by apply list_elem_of_further.
Qed.

Lemma accepted_cons (now : nat -> list N) (els : list Element)
    (el : Element) :
  el ∈ els -> accepts el = true -> 0 < length (accepted now els).
Proof.
  intros Hin Hacc. unfold accepted. rewrite length_imap.
  induction Hin as [el els|el other els Hin IH]; simpl.
  - rewrite Hacc. simpl. lia.
  - destruct (accepts other); simpl; [lia|by apply IH].
Qed.

(** The loop passes over the selectors that give no accepted element and
    returns at the first one that gives some. *)
Lemma scan_selectors_first (q : string -> list Element)
    (now : nat -> list N)
    (before : list string) (sel : string) (after : list string) :
  (forall s, s ∈ before -> forall el, el ∈ q s -> accepts el = false) ->
  (exists el, el ∈ q sel /\ accepts el = true) ->
  scan_selectors q now (before ++ sel :: after) [] = accepted now (q sel).
Proof.
  intros Hb (el & Hin & Hacc).
  induction before as [|s before IH]; simpl.
  - rewrite foldl_visit_nil.
    pose proof (accepted_cons now (q sel) el Hin Hacc) as Hlen.
    by destruct (Nat.ltb_spec 0 (length (accepted now (q sel)))); [|lia].
  - rewrite foldl_visit_nil.
    rewrite (accepted_nil now (q s)) by (apply Hb; apply list_elem_of_here).
    simpl. apply IH. intros s' Hs'. apply Hb. by apply list_elem_of_further.
Qed.

Lemma scan_selectors_none (q : string -> list Element)
    (now : nat -> list N) (sels : list string) :
  (forall s, s ∈ sels -> forall el, el ∈ q s -> accepts el = false) ->
  scan_selectors q now sels [] = [].
Proof.
  induction sels as [|s sels IH]; intros Hall; simpl; [done|].
  rewrite foldl_visit_nil.
  rewrite (accepted_nil now (q s)) by (apply Hall; apply list_elem_of_here).
  simpl. apply IH. intros s' Hs'. apply Hall. by apply list_elem_of_further.
Qed.

(** C8, as the code has it. [getChatMessages] goes through its selectors in
    order and stops after the first selector for which at least one element
    is accepted: it returns the accepted elements of that selector and of no
    later one. Selectors whose elements are all rejected are passed over,
    like selectors that match nothing; when no selector has an accepted
    element, the result is empty. *)
Theorem selector_scan_stops_at_first_accepted
    (q : string -> list Element) (now : nat -> list N) :
  (forall before sel after,
      conversationSelectors = before ++ sel :: after ->
      (forall s, s ∈ before -> forall el, el ∈ q s -> accepts el = false) ->
      (exists el, el ∈ q sel /\ accepts el = true) ->
      let found := accepted now (q sel) in
      chat_snippet q now = (drop (length found - 20) found, length found))
  /\ ((forall s, s ∈ conversationSelectors ->
         forall el, el ∈ q s -> accepts el = false) ->
      chat_snippet q now = ([], 0)).
Proof.
  split.
  - intros before sel after Hsels Hb Hsel found. unfold chat_snippet.
    rewrite Hsels. by rewrite scan_selectors_first.
  - intros Hall. unfold chat_snippet. by rewrite scan_selectors_none.
Qed.

(** The first container holds only a button label: the message of the
    second container is returned. *)
Lemma selector_scan_stops_at_first_accepted_witness :
  chat_snippet two_container_page (fun _ => [])
  = ([ {| role := agent; content := prose; timestamp := [] |} ], 1).
Proof.
  destruct (selector_scan_stops_at_first_accepted two_container_page
              (fun _ => []))
    as [Hfirst _].
  apply (Hfirst [".conversation-content"%string] ".agent-response"%string
           [".assistant-message"; ".user-query"; "[data-mode-id] .view-lines";
            ".auxiliary-bar .content"; ".panel-content"]%string).
  - reflexivity.
  - intros s Hs%list_elem_of_singleton el. subst s.
    intros Hel%list_elem_of_singleton. by subst el.
  - eexists. split; [apply list_elem_of_here|reflexivity].
Defined.

(** The claim as the specification words it (the scan stops at the first
    selector that yields any element, whatever the classifier says of it)
    fails on that page. *)
Lemma selector_scan_stops_at_first_candidate_counterexample :
  ~ (forall (q : string -> list Element) (now : nat -> list N)
            (before : list string) (sel : string) (after : list string),
        conversationSelectors = before ++ sel :: after ->
        (forall s, s ∈ before -> q s = []) ->
        q sel <> [] ->
        let found := accepted now (q sel) in
        chat_snippet q now = (drop (length found - 20) found, length found)).
Proof.
  intros Hclaim.
  specialize (Hclaim two_container_page (fun _ => []) []
                ".conversation-content"%string (tail conversationSelectors)).
  assert (Habs : chat_snippet two_container_page (fun _ => []) = ([], 0)).
  { apply Hclaim; [reflexivity| |discriminate].
    intros s Hs. by apply elem_of_nil in Hs. }
  discriminate Habs.
Qed.

(** ** The workspace locator *)

Lemma match_index_first (name : list N) (parts : list (list N)) (k i : nat) :
  match_index name parts k = Some i ->
  exists j part,
    i = k + j
    /\ parts !! j = Some part
    /\ toLowerCase part = toLowerCase name
    /\ forall j' part', j' < j -> parts !! j' = Some part' ->
         toLowerCase part' <> toLowerCase name.
Proof.
  revert k. induction parts as [|part parts IH]; intros k; simpl; [done|].
  case_bool_decide as Heq.
  - intros [= <-]. exists 0, part. repeat split; [lia|done|]. intros; lia.
  - intros (j & part' & -> & Hj & Hlow & Hmin)%IH.
    exists (S j), part'. repeat split; [lia|done|done|].
    intros [|j'] p Hlt Hp; simpl in Hp.
    + by injection Hp as <-.
    + apply (Hmin j' p); [lia|done].
Qed.

(** Where the code and the specification's words give the same folder:
    everywhere but on a Windows path of fewer than two segments that has to
    fall back. *)
Lemma resolve_workspace_by_claim (filePath : list N) (isWindows : bool)
    (projectName : option (list N)) :
  isWindows = false
  \/ 2 <= length (path_parts filePath isWindows)
  \/ (exists name i, projectName = Some name /\ is_empty name = false
        /\ match_index name (path_parts filePath isWindows) 0 = Some i) ->
  resolve_workspace filePath isWindows projectName
  = workspace_by_claim filePath isWindows projectName.
Proof.
  intros Hcase. unfold resolve_workspace, workspace_by_claim.
  set (parts := path_parts filePath isWindows) in *.
  set (found := match projectName with
                | Some name =>
                    if is_empty name then None else match_index name parts 0
                | None => None
                end).
  destruct isWindows; [|done]. unfold render_folder.
  destruct found as [i|] eqn:Hfound.
  - assert (Hm : exists name, match_index name parts 0 = Some i).
    { subst found. destruct projectName as [name|]; [|done].
      destruct (is_empty name); [done|]. by exists name. }
    destruct Hm as (name & (j & part & _ & Hj & _)%match_index_first).
    destruct parts as [|drive rest]; [done|].
    by rewrite Nat.add_1_r.
  - destruct Hcase as [[=]|[Hlen|(name & i & -> & Hne & Hm)]].
    + unfold drop_last. destruct parts as [|drive [|next rest]];
        simpl in Hlen; try lia. done.
    + subst found. rewrite Hne, Hm in Hfound. discriminate Hfound.
Qed.

(** The example of the specification, from the tab label to the folder and
    through the whole command. *)
Lemma getWorkspacePath_unix_example :
  path_of_source (lit "/Users/alice/MyProject/src/index.ts - MyProject")
  = Some (lit "/Users/alice/MyProject/src/index.ts", false)
  /\ project_name (title editor_window) = Some (lit "MyProject")
  /\ resolve_workspace (lit "/Users/alice/MyProject/src/index.ts") false
       (Some (lit "MyProject"))
     = lit "/Users/alice/MyProject"
  /\ resolve_workspace (lit "/Users/alice/MyProject/src/index.ts") false None
     = lit "/Users/alice/MyProject/src"
  /\ (run GetWorkspacePath
        (initial sample_env
           [evaluated (workspace_snippet (fun _ => None) [unix_tab] [])])).1
     = Normal (str "/Users/alice/MyProject").
Proof. vm_compute. tauto. Qed.

(** C7, at the input where the code leaves the claim. For a Windows-style
    path of a single segment and a project name that names no segment, the
    claim asks for the path without its last segment, which is the empty
    path; the code reads the first of no segments and answers
    ["undefined\"]. The tab label "Preview: README.md" leads there. *)
Theorem getWorkspacePath_single_segment_windows :
  path_of_source (lit "Preview: README.md") = Some (lit "w: README.md", true)
  /\ path_parts (lit "w: README.md") true = [lit "w: README.md"]
  /\ resolve_workspace (lit "w: README.md") true (Some (lit "MyProject"))
     = lit "undefined" ++ [92%N]
  /\ workspace_by_claim (lit "w: README.md") true (Some (lit "MyProject"))
     = []
  /\ (run GetWorkspacePath
        (initial sample_env
           [evaluated (workspace_snippet (fun _ => None) [preview_tab] [])])).1
     = Normal (JStr (lit "undefined" ++ [92%N])).
Proof. vm_compute. tauto. Qed.

(** ** More on the session channel *)

(** X1. On a session whose counter is below 2^53, the identifier [send]
    takes is not pending: the request is added to the table without
    replacing an outstanding one, every outstanding entry is kept, and the
    counter grows. *)
Theorem send_never_overwrites (s : Session) (method : string) (params : json) :
  reachable s ->
  (messageId s < 2 ^ 53)%Z ->
  pending s !! messageId s = None
  /\ size (pending (send method params s).2) = S (size (pending s))
  /\ (messageId s < messageId (send method params s).2)%Z
  /\ forall id h, pending s !! id = Some h ->
       pending (send method params s).2 !! id = Some h.
Proof.
  intros Hr Hlt.
  assert (Hfresh : pending s !! messageId s = None).
  { destruct (pending s !! messageId s) as [h|] eqn:Hp; [|done].
    destruct (pending_below_counter s Hr _ _ Hp); lia. }
  split; [done|]. simpl. split; [by apply map_size_insert_None|].
  split.
  - unfold js_incr. destruct (Z.ltb_spec (messageId s) (2 ^ 53)); lia.
  - intros id h Hp. rewrite lookup_insert_ne; [done|]. congruence.
Qed.

Lemma send_never_overwrites_witness :
  let s := (send "Runtime.enable" JUndefined new_session).2 in
  pending s !! 2%Z = None
  /\ size (pending (send "Page.enable" JUndefined s).2) = 2
  /\ (2 < messageId (send "Page.enable" JUndefined s).2)%Z
  /\ forall id h, pending s !! id = Some h ->
       pending (send "Page.enable" JUndefined s).2 !! id = Some h.
Proof.
  intros s.
  apply (send_never_overwrites s "Page.enable" JUndefined).
  - repeat constructor.
  - reflexivity.
Defined.

Lemma await_skips (h : nat) (id : Z) (strays : list json) (reply : json)
    (rest : list json) (s : Session) :
  reachable s ->
  pending s !! id = Some h ->
  (forall m, m ∈ strays -> handler_throws m = false) ->
  (forall m, m ∈ strays -> prop m "id" <> JNum id) ->
  prop reply "id" = JNum id ->
  await h s (strays ++ reply :: rest)
  = (Some (response_outcome reply), on_message reply (deliver strays s), rest).
Proof.
  revert s. induction strays as [|m strays IH]; intros s Hr Hp Hok Hstr Hid.
  - destruct (reachable_inv s Hr) as [_ Hk Hw _].
    simpl. rewrite (Hw _ _ Hp).
    assert (Hnz : id <> 0%Z) by (specialize (Hk _ _ Hp); lia).
    assert (Hlive : handler_throws reply = false)
      by (destruct reply; done).
    assert (Hset : promises (on_message reply s) !! h
                   = Some (Settled (response_outcome reply))).
    { rewrite (on_message_hit s reply id h) by done. simpl.
      apply settle_lookup_same. eauto. }
    rewrite Hlive. destruct rest; simpl; by rewrite Hset.
  - destruct (reachable_inv s Hr) as [_ _ Hw _].
    simpl. rewrite (Hw _ _ Hp), (Hok m) by apply list_elem_of_here.
    apply IH.
    + by constructor.
    + apply on_message_keeps_pending; [|done].
      apply Hstr, list_elem_of_here.
    + intros m' Hm'. apply Hok. by apply list_elem_of_further.
    + intros m' Hm'. apply Hstr. by apply list_elem_of_further.
    + done.
Qed.

(** A message on which the handler throws, before the response: the wait
    does not end. *)
Lemma await_broken (h : nat) (id : Z) (strays : list json) (broken : json)
    (rest : list json) (s : Session) :
  reachable s ->
  pending s !! id = Some h ->
  (forall m, m ∈ strays -> handler_throws m = false) ->
  (forall m, m ∈ strays -> prop m "id" <> JNum id) ->
  handler_throws broken = true ->
  await h s (strays ++ broken :: rest) = (None, deliver strays s, []).
Proof.
  revert s. induction strays as [|m strays IH]; intros s Hr Hp Hok Hstr Hbr;
    destruct (reachable_inv s Hr) as [_ _ Hw _]; simpl; rewrite (Hw _ _ Hp).
  - by rewrite Hbr.
  - rewrite (Hok m) by apply list_elem_of_here.
    apply IH; [by constructor| | | |done].
    + apply on_message_keeps_pending; [|done].
      apply Hstr, list_elem_of_here.
    + intros m' Hm'. apply Hok. by apply list_elem_of_further.
    + intros m' Hm'. apply Hstr. by apply list_elem_of_further.
Qed.

(** What [await client.send] comes to when the response is among the
    incoming messages. *)
Lemma client_send_reply
    (w : World) (method : string) (params : json)
    (strays : list json) (reply : json) (rest : list json) :
  reachable (session w) ->
  inbox w = strays ++ reply :: rest ->
  (forall m, m ∈ strays -> handler_throws m = false) ->
  (forall m, m ∈ strays -> prop m "id" <> JNum (messageId (session w))) ->
  prop reply "id" = JNum (messageId (session w)) ->
  (client_send method params w).1
  = (if truthy (prop reply "error")
     then Throw (new_Error (prop (prop reply "error") "message"))
     else Normal (prop reply "result"))
  /\ inbox (client_send method params w).2 = rest.
Proof.
  intros Hr Hin Hok Hstr Hid. unfold client_send.
  destruct (send method params (session w)) as [[h envelope] s1] eqn:Hsend.
  assert (Hr1 : reachable s1).
  { replace s1 with (send method params (session w)).2 by by rewrite Hsend.
    by constructor. }
  assert (Hp1 : pending s1 !! messageId (session w) = Some h).
  { injection Hsend as <- _ <-. simpl. apply lookup_insert_eq. }
  rewrite Hin, (await_skips h (messageId (session w)) strays reply rest s1)
    by done.
  unfold response_outcome. by destruct (truthy (prop reply "error")).
Qed.

Lemma client_send_broken
    (w : World) (method : string) (params : json)
    (strays : list json) (broken : json) (rest : list json) :
  reachable (session w) ->
  inbox w = strays ++ broken :: rest ->
  (forall m, m ∈ strays -> handler_throws m = false) ->
  (forall m, m ∈ strays -> prop m "id" <> JNum (messageId (session w))) ->
  handler_throws broken = true ->
  (client_send method params w).1 = Stuck.
Proof.
  intros Hr Hin Hok Hstr Hbr. unfold client_send.
  destruct (send method params (session w)) as [[h envelope] s1] eqn:Hsend.
  assert (Hr1 : reachable s1).
  { replace s1 with (send method params (session w)).2 by by rewrite Hsend.
    by constructor. }
  assert (Hp1 : pending s1 !! messageId (session w) = Some h).
  { injection Hsend as <- _ <-. simpl. apply lookup_insert_eq. }
  by rewrite Hin,
    (await_broken h (messageId (session w)) strays broken rest s1).
Qed.

(** X2. [await client.send(...)] looks only at the response with its own
    identifier: the events and other responses that arrive before it are
    passed to the handler and do not end the wait; the call then returns the
    response's [result], or throws an Error whose message is the response's
    [error.message], and the messages behind the response are left for
    later. When a message that parses to [null] arrives before the response,
    the handler throws on it and the call does not return. *)
Theorem client_send_skips_other_messages
    (w : World) (method : string) (params : json)
    (strays : list json) (reply : json) (rest : list json) :
  reachable (session w) ->
  (forall m, m ∈ strays -> handler_throws m = false) ->
  (forall m, m ∈ strays -> prop m "id" <> JNum (messageId (session w))) ->
  prop reply "id" = JNum (messageId (session w)) ->
  let answered :=
    client_send method params (with_inbox w (strays ++ reply :: rest)) in
  let broken :=
    client_send method params
      (with_inbox w (strays ++ JNull :: reply :: rest)) in
  (truthy (prop reply "error") = false ->
   answered.1 = Normal (prop reply "result"))
  /\ (truthy (prop reply "error") = true ->
      answered.1 = Throw (new_Error (prop (prop reply "error") "message"))
      /\ forall text,
           prop (prop reply "error") "message" = JStr text ->
           answered.1 = Throw (JsError "Error" text))
  /\ inbox answered.2 = rest
  /\ broken.1 = Stuck.
Proof.
  intros Hr Hok Hstr Hid answered broken.
  destruct (client_send_reply (with_inbox w (strays ++ reply :: rest))
              method params strays reply rest) as [Hout Hin]; try done.
  fold answered in Hout, Hin.
  split; [intros Herr; by rewrite Herr in Hout|].
  split.
  { intros Herr. rewrite Herr in Hout. split; [done|].
    intros text Htext. by rewrite Htext in Hout. }
  split; [done|].
  by apply (client_send_broken _ method params strays JNull (reply :: rest)).
Qed.

(** A console event and a response to an unknown request arrive before the
    answer to request 1. *)
Lemma client_send_skips_other_messages_witness :
  let w := {| env := sample_env; session := new_session; inbox := [];
              trace := [] |} in
  let strays := [obj [("method", str "Runtime.consoleAPICalled")];
                 obj [("id", JNum 7); ("result", str "late")]] in
  let reply := obj [("id", JNum 1); ("result", str "mine")] in
  let rest := [obj [("method", str "Page.frameNavigated")]] in
  (client_send "Page.getLayoutMetrics" JUndefined
     (with_inbox w (strays ++ reply :: rest))).1 = Normal (str "mine")
  /\ inbox (client_send "Page.getLayoutMetrics" JUndefined
              (with_inbox w (strays ++ reply :: rest))).2 = rest
  /\ (client_send "Page.getLayoutMetrics" JUndefined
        (with_inbox w (strays ++ JNull :: reply :: rest))).1 = Stuck.
Proof.
  intros w strays reply rest.
  destruct (client_send_skips_other_messages w "Page.getLayoutMetrics"
              JUndefined strays reply rest) as (Hres & _ & Hin & Hbroken).
  - constructor.
  - intros m [->|[->|Hm%elem_of_nil]%elem_of_cons]%elem_of_cons; done.
  - intros m [->|[->|Hm%elem_of_nil]%elem_of_cons]%elem_of_cons;
      [discriminate|discriminate|done].
  - reflexivity.
  - split; [by apply Hres|]. by split.
Defined.

(** ** More on target selection and connecting *)

(** X3. Whatever the list, the target [findEditorTarget] settles on is a
    member of the list and has type "page" (a worker or an iframe entry is
    never taken, whatever its title); and it settles on nothing exactly when
    the list holds no page. *)
Theorem selectEditorTarget_sound (targets : list Target) :
  (forall t, selectEditorTarget targets = Some t ->
     t ∈ targets /\ is_page t = true)
  /\ (selectEditorTarget targets = None <->
      forall t, t ∈ targets -> is_page t = false).
Proof.
  split.
  - intros t. unfold selectEditorTarget.
    destruct (List.find is_editor targets) as [editor|] eqn:He.
    + intros [= <-]. apply List.find_some in He as [Hin He].
      split; [by apply list_elem_of_In|].
      apply is_editor_spec in He as [Ht _].
      unfold is_page. by apply bool_decide_eq_true.
    + intros [Hin Hp]%List.find_some. split; [by apply list_elem_of_In|done].
  - split.
    + unfold selectEditorTarget.
      destruct (List.find is_editor targets); [done|].
      intros Hnone t Hin%list_elem_of_In.
      by apply (List.find_none _ _ Hnone).
    + intros Hnone. unfold selectEditorTarget.
      rewrite (find_nowhere is_editor), (find_nowhere is_page); [done..|].
      intros t Hin. unfold is_editor. by rewrite (Hnone t Hin).
Qed.

Ltac unfold_commands :=
  unfold captureScreenshot, getPageMetrics, injectCommand, injectAndSubmit,
    focusInput, getChatMessages, getAgentPanelContent, getConversationText,
    getWorkspacePath, findEditorTarget, getTargets, connectToTarget, mbind,
    M_bind, mret, M_ret.

(** X4. When the selected target has no [webSocketDebuggerUrl] (absent or
    empty), every command throws "No WebSocket URL for target" after the
    target list was fetched: no socket is opened, nothing is sent and
    nothing is closed. *)
Theorem command_without_control_address
    (c : command) (e : Env) (incoming : list json)
    (targets : list Target) (target : Target) :
  list_reply e = inr targets ->
  selectEditorTarget targets = Some target ->
  webSocketDebuggerUrl target = None \/ webSocketDebuggerUrl target = Some [] ->
  (run c (initial e incoming)).1
  = Throw (new_Error (str "No WebSocket URL for target"))
  /\ trace (run c (initial e incoming)).2 = [EvFetch "/json/list"].
Proof.
  intros Hlist Hsel Hurl.
  destruct c; simpl; unfold_commands; simpl; rewrite Hlist; simpl;
    rewrite Hsel; destruct Hurl as [-> | ->]; done.
Qed.

Lemma command_without_control_address_witness :
  let bare :=
    {| target_id := lit "D4"; type_ := lit "page";
       title := lit "MyProject - Antigravity";
       url := lit "vscode-file://vscode-app/workbench.html";
       webSocketDebuggerUrl := None |} in
  let e := {| list_reply := inr [bare]; version_reply := inr JNull;
              connect_reply := ConnOpen |} in
  (run GetWorkspacePath (initial e [])).1
  = Throw (new_Error (str "No WebSocket URL for target"))
  /\ trace (run GetWorkspacePath (initial e [])).2 = [EvFetch "/json/list"].
Proof.
  intros bare e.
  apply (command_without_control_address GetWorkspacePath e [] [bare] bare).
  - reflexivity.
  - reflexivity.
  - left. reflexivity.
Defined.

(** X5. A failure of the discovery request, or of the connection attempt to
    a selected target that has an address, reaches the caller of every
    command unchanged ([getWorkspacePath] included); nothing was sent and
    [close()] is not called, there being no client yet. *)
Theorem transport_failure_propagates
    (c : command) (e : Env) (incoming : list json) (err : exn) :
  (list_reply e = inl err
   \/ (exists targets target u wsUrl,
         list_reply e = inr targets
         /\ selectEditorTarget targets = Some target
         /\ webSocketDebuggerUrl target = Some (u :: wsUrl)
         /\ connect_reply e = ConnError err)) ->
  (run c (initial e incoming)).1 = Throw err
  /\ trace (run c (initial e incoming)).2 = [EvFetch "/json/list"].
Proof.
  intros [Hlist|(targets & target & u & wsUrl & Hlist & Hsel & Hurl & Hconn)].
  - destruct c; simpl; unfold_commands; simpl; by rewrite Hlist.
  - destruct c; simpl; unfold_commands; simpl; rewrite Hlist; simpl;
      rewrite Hsel, Hurl; simpl; by rewrite Hconn.
Qed.

Lemma transport_failure_propagates_witness :
  let refused := JsError "Error" (lit "connect ECONNREFUSED 127.0.0.1:9222") in
  let e := {| list_reply := inr [launchpad_window; editor_window];
              version_reply := inr JNull;
              connect_reply := ConnError refused |} in
  (run GetChatMessages (initial e [])).1 = Throw refused
  /\ trace (run GetChatMessages (initial e [])).2 = [EvFetch "/json/list"].
Proof.
  intros refused e.
  apply (transport_failure_propagates GetChatMessages e [] refused).
  right. exists [launchpad_window; editor_window], editor_window, 119%N,
    (lit "s://localhost:9222/devtools/page/A1").
  repeat split.
Defined.

(** ** Request numbering within a command *)

Lemma on_message_messageId (msg : json) (s : Session) :
  messageId (on_message msg s) = messageId s.
Proof.
  unfold on_message. destruct (truthy _); [|done].
  by destruct (pending_get _ _).
Qed.

Lemma await_messageId (h : nat) (incoming : list json) (s : Session) :
  messageId (await h s incoming).1.2 = messageId s.
Proof.
  revert s. induction incoming as [|msg rest IH]; intros s; simpl.
  - by destruct (promises s !! h) as [[|o]|].
  - destruct (promises s !! h) as [[|o]|]; simpl; try done;
      (destruct (handler_throws msg); [done|]);
      by rewrite IH, on_message_messageId.
Qed.

(** What one [await client.send] leaves behind. *)
Lemma client_send_world (method : string) (params : json) (w : World) :
  trace (client_send method params w).2
  = trace w ++ [EvSend (frame (messageId (session w)) method
                          (match params with JUndefined => JObj [] | p => p end))]
  /\ messageId (session (client_send method params w).2)
     = js_incr (messageId (session w)).
Proof.
  unfold client_send, send.
  match goal with
  | |- context [await ?h ?s1 (inbox w)] =>
      pose proof (await_messageId h (inbox w) s1) as Hid;
      destruct (await h s1 (inbox w)) as [[o s2] rest]
  end.
  simpl in Hid. destruct o as [[v|e]|]; simpl; by rewrite Hid.
Qed.

Lemma ids_from_app (m : Z) (a b : nat) :
  ids_from m (a + b) = ids_from m a ++ ids_from (Nat.iter a js_incr m) b.
Proof.
  revert m. induction a as [|a IH]; intros m; [done|].
  simpl. rewrite IH. f_equal. f_equal. f_equal.
  clear IH. induction a as [|a IH]; [done|]. simpl. by rewrite <- IH.
Qed.

Lemma ids_from_lookup (m : Z) (n k : nat) (x : Z) :
  (1 <= m <= 2 ^ 53)%Z ->
  ids_from m n !! k = Some x -> x = Z.min (m + Z.of_nat k) (2 ^ 53).
Proof.
  revert m k. induction n as [|n IH]; intros m k Hm; [done|].
  destruct k as [|k]; simpl.
  - intros [= <-]. lia.
  - intros Hx. apply IH in Hx.
    + subst x. unfold js_incr.
      destruct (Z.ltb_spec m (2 ^ 53)); lia.
    + unfold js_incr. destruct (Z.ltb_spec m (2 ^ 53)); lia.
Qed.

Section Numbered.

Context {A : Type}.

Lemma sent_ids_app (tr1 tr2 : list event) :
  sent_ids (tr1 ++ tr2) = sent_ids tr1 ++ sent_ids tr2.
Proof. apply omap_app. Qed.

Lemma numbered_ret (a : A) : numbered (mret a).
Proof.
  intros w r w' [= <- <-]. exists []. by rewrite app_nil_r.
Qed.

Lemma numbered_throw (e : exn) : numbered (@throw A e).
Proof.
  intros w r w' [= <- <-]. exists []. by rewrite app_nil_r.
Qed.

Lemma numbered_join (w w1 w2 : World) (evs1 evs2 : list event) :
  trace w1 = trace w ++ evs1 ->
  sent_ids evs1
  = map JNum (ids_from (messageId (session w)) (length (sent_ids evs1))) ->
  messageId (session w1)
  = Nat.iter (length (sent_ids evs1)) js_incr (messageId (session w)) ->
  trace w2 = trace w1 ++ evs2 ->
  sent_ids evs2
  = map JNum (ids_from (messageId (session w1)) (length (sent_ids evs2))) ->
  messageId (session w2)
  = Nat.iter (length (sent_ids evs2)) js_incr (messageId (session w1)) ->
  trace w2 = trace w ++ (evs1 ++ evs2)
  /\ sent_ids (evs1 ++ evs2)
     = map JNum (ids_from (messageId (session w))
                   (length (sent_ids (evs1 ++ evs2))))
  /\ messageId (session w2)
     = Nat.iter (length (sent_ids (evs1 ++ evs2))) js_incr
         (messageId (session w)).
Proof.
  intros Ht1 Hi1 Hm1 Ht2 Hi2 Hm2.
  rewrite sent_ids_app, length_app, ids_from_app, map_app.
  split; [by rewrite Ht2, Ht1, app_assoc|]. split.
  - rewrite <- Hi1, <- Hm1, <- Hi2. done.
  - rewrite Hm2, Hm1, Nat.add_comm. symmetry. apply Nat.iter_add.
Qed.

Lemma numbered_bind {B : Type} (m : M B) (k : B -> M A) :
  numbered m -> (forall b, numbered (k b)) -> numbered (m ≫= k).
Proof.
  intros Hm Hk w r w'. unfold mbind, M_bind.
  destruct (m w) as [[b|e|] w1] eqn:E;
    destruct (Hm _ _ _ E) as (evs1 & Ht1 & Hi1 & Hm1).
  - intros Hkb. destruct (Hk _ _ _ _ Hkb) as (evs2 & Ht2 & Hi2 & Hm2).
    exists (evs1 ++ evs2). by eapply numbered_join.
  - intros [= <- <-]. by exists evs1.
  - intros [= <- <-]. by exists evs1.
Qed.

Lemma numbered_try_finally (body : M A) (fin : M unit) :
  numbered body -> numbered fin -> numbered (try_finally body fin).
Proof.
  intros Hb Hf w r w'. unfold try_finally.
  destruct (body w) as [[a|e|] w1] eqn:E;
    destruct (Hb _ _ _ E) as (evs1 & Ht1 & Hi1 & Hm1);
    try (intros [= <- <-]; by exists evs1);
    destruct (fin w1) as [[u|e'|] w2] eqn:F;
    destruct (Hf _ _ _ F) as (evs2 & Ht2 & Hi2 & Hm2);
    intros [= <- <-]; exists (evs1 ++ evs2); by eapply numbered_join.
Qed.

End Numbered.

Lemma numbered_emit (ev : event) :
  (forall envelope, ev <> EvSend envelope) -> numbered (emit ev).
Proof.
  intros Hev w r w' [= <- <-]. exists [ev]. simpl.
  by destruct ev; [| |destruct (Hev envelope)| |].
Qed.

Lemma numbered_client_close : numbered client_close.
Proof. intros w r w' [= <- <-]. by exists [EvClose]. Qed.

Lemma numbered_get_prop v k : numbered (get_prop v k).
Proof.
  unfold get_prop.
  destruct (nullish v); [apply numbered_throw|apply numbered_ret].
Qed.

Lemma numbered_client_send method params :
  numbered (client_send method params).
Proof.
  intros w r w' Hrun.
  destruct (client_send_world method params w) as [Ht Hm].
  rewrite Hrun in Ht, Hm. simpl in Ht, Hm.
  eexists. split; [exact Ht|]. by split.
Qed.

Lemma numbered_value_or result fallback : numbered (value_or result fallback).
Proof.
  apply numbered_bind; [apply numbered_get_prop|intros; apply numbered_ret].
Qed.

Lemma numbered_type_chars chars : numbered (type_chars chars).
Proof.
  induction chars as [|char rest IH]; simpl; [apply numbered_ret|].
  repeat (apply numbered_bind; [apply numbered_client_send|intros _]). done.
Qed.

Create HintDb numbered.

#[local] Hint Resolve numbered_ret numbered_throw numbered_get_prop
  numbered_client_send numbered_value_or numbered_type_chars
  numbered_client_close : numbered.

Ltac numbered_body :=
  repeat first
    [ apply numbered_bind; [solve [auto with numbered]|intros ?]
    | apply numbered_bind; [apply numbered_emit; discriminate|intros ?]
    | solve [auto with numbered]
    | progress cbv zeta
    | match goal with
      | |- numbered (if ?b then _ else _) => destruct b
      | |- numbered (match ?v with _ => _ end) => destruct v
      end ].

(** Connecting resets the counter; what follows is numbered from 1. *)
Lemma connect_numbered {A : Type} (target : Target) (body : M A)
    (w : World) (r : completion A) (w' : World) :
  numbered body ->
  sent_ids (trace w) = [] ->
  (connectToTarget target;; try_finally body client_close) w = (r, w') ->
  exists n, sent_ids (trace w') = map JNum (ids_from 1 n).
Proof.
  intros Hb Hw. unfold mbind, M_bind, connectToTarget.
  destruct (webSocketDebuggerUrl target) as [[|c wsUrl]|];
    try (intros [= <- <-]; exists 0; by rewrite Hw).
  destruct (connect_reply (env w));
    try (intros [= <- <-]; exists 0; by rewrite Hw).
  intros Hrun.
  apply (numbered_try_finally body client_close Hb numbered_client_close)
    in Hrun as (evs & Ht & Hi & _).
  simpl in Ht, Hi. exists (length (sent_ids evs)).
  rewrite Ht, !sent_ids_app, Hw. simpl. exact Hi.
Qed.

Lemma with_target_numbered {A : Type} (k : option Target -> M A)
    (w : World) (r : completion A) (w' : World) :
  sent_ids (trace w) = [] ->
  (forall t w1 r1 w1',
      sent_ids (trace w1) = [] -> k t w1 = (r1, w1') ->
      exists n, sent_ids (trace w1') = map JNum (ids_from 1 n)) ->
  (findEditorTarget ≫= k) w = (r, w') ->
  exists n, sent_ids (trace w') = map JNum (ids_from 1 n).
Proof.
  intros Hw Hk.
  assert (Hfetch : sent_ids (trace w ++ [EvFetch "/json/list"]) = [])
    by (by rewrite sent_ids_app, Hw).
  unfold findEditorTarget, getTargets, mbind, M_bind, mret, M_ret.
  destruct (list_reply (env w)) as [err|targets].
  - intros [= <- <-]. exists 0. cbn [trace]. by rewrite Hfetch.
  - apply Hk. exact Hfetch.
Qed.

Lemma run_numbered (c : command) (w : World) (r : completion json)
    (w' : World) :
  sent_ids (trace w) = [] ->
  run c w = (r, w') ->
  exists n, sent_ids (trace w') = map JNum (ids_from 1 n).
Proof.
  intros Hw.
  destruct c; simpl;
    unfold captureScreenshot, getPageMetrics, injectCommand, injectAndSubmit,
      focusInput, getChatMessages, getAgentPanelContent, getConversationText,
      getWorkspacePath;
    (apply with_target_numbered; [exact Hw|]);
    intros [target|] w1 r1 w1' Hw1;
    try (intros [= <- <-]; exists 0; by rewrite Hw1);
    apply (connect_numbered target); try exact Hw1; numbered_body.
Qed.

(** X6. In every run of a command, the requests go out numbered 1, 2, 3, ...
    in the order they are sent: the request at position [k] of the trace
    (counting from 0) carries the identifier [k + 1], up to the point 2^53
    where the counter stops. *)
Theorem command_requests_are_numbered
    (c : command) (e : Env) (incoming : list json) (k : nat) (v : json) :
  sent_ids (trace (run c (initial e incoming)).2) !! k = Some v ->
  v = JNum (Z.min (Z.of_nat k + 1) (2 ^ 53)).
Proof.
  destruct (run c (initial e incoming)) as [r w'] eqn:Hrun.
  apply run_numbered in Hrun as [n Hn]; [|done].
  simpl. rewrite Hn, list_lookup_fmap.
  destruct (ids_from 1 n !! k) as [x|] eqn:Hx; [|done].
  intros [= <-]. apply ids_from_lookup in Hx; [|lia].
  f_equal. lia.
Qed.

(** The three requests of [injectAndSubmit]. *)
Lemma command_requests_are_numbered_witness :
  let incoming :=
    [obj [("id", JNum 1); ("result", JObj [])];
     obj [("id", JNum 2); ("result", JObj [])];
     obj [("id", JNum 3); ("result", JObj [])]] in
  sent_ids (trace (run (InjectAndSubmit (str "ls")) (initial sample_env incoming)).2)
    !! 2 = Some (JNum 3)
  /\ JNum 3 = JNum (Z.min (Z.of_nat 2 + 1) (2 ^ 53)).
Proof.
  intros incoming. split; [reflexivity|].
  apply (command_requests_are_numbered (InjectAndSubmit (str "ls"))
           sample_env incoming 2 (JNum 3)).
  reflexivity.
Defined.

(** ** What [injectCommand] types *)

Lemma chars_of_cons (a b : N) (t : list N) :
  chars_of (a :: b :: t)
  = if is_high_surrogate a && is_low_surrogate b
    then [a; b] :: chars_of t
    else [a] :: chars_of (b :: t).
Proof. reflexivity. Qed.

Lemma chars_of_concat_both (text : list N) :
  concat (chars_of text) = text
  /\ forall a, concat (chars_of (a :: text)) = a :: text.
Proof.
  induction text as [|b t [IH1 IH2]]; [done|].
  split; [apply IH2|].
  intros a. rewrite chars_of_cons.
  destruct (is_high_surrogate a && is_low_surrogate b).
  - change (concat ([a; b] :: chars_of t)) with (a :: b :: concat (chars_of t)).
    by rewrite IH1.
  - change (concat ([a] :: chars_of (b :: t))) with
      (a :: concat (chars_of (b :: t))).
    by rewrite IH2.
Qed.

Lemma key_down_texts_app (tr1 tr2 : list event) :
  key_down_texts (tr1 ++ tr2) = key_down_texts tr1 ++ key_down_texts tr2.
Proof. apply omap_app. Qed.

(** The key-down events of the typing loop spell a prefix of its
    characters, and all of them when the loop completes. *)
Lemma type_chars_key_downs (chars : list (list N)) (w : World)
    (r : completion unit) (w' : World) :
  type_chars chars w = (r, w') ->
  exists k evs,
    trace w' = trace w ++ evs
    /\ key_down_texts evs = map JStr (take k chars)
    /\ (r = Normal tt -> k = length chars).
Proof.
  revert w. induction chars as [|char rest IH]; intros w.
  - intros [= <- <-]. exists 0, []. by rewrite app_nil_r.
  - set (code := JStr (lit "Key" ++ toUpperCase char)).
    set (down := obj [("type", str "keyDown"); ("text", JStr char);
                      ("key", JStr char); ("code", code)]).
    set (up := obj [("type", str "keyUp"); ("key", JStr char);
                    ("code", code)]).
    change (type_chars (char :: rest) w)
      with ((client_send "Input.dispatchKeyEvent" down;;
             client_send "Input.dispatchKeyEvent" up;;
             type_chars rest) w).
    unfold mbind, M_bind.
    destruct (client_send_world "Input.dispatchKeyEvent" down w) as [Ht1 _].
    destruct (client_send "Input.dispatchKeyEvent" down w) as [[u|e|] w1];
      simpl in Ht1;
      try (intros [= <- <-]; exists 1; eexists; split; [exact Ht1|];
           split; [reflexivity|discriminate]).
    destruct (client_send_world "Input.dispatchKeyEvent" up w1) as [Ht2 _].
    destruct (client_send "Input.dispatchKeyEvent" up w1) as [[u'|e|] w2];
      simpl in Ht2;
      try (intros [= <- <-]; exists 1; eexists; split;
           [rewrite Ht2, Ht1, <- app_assoc; reflexivity|];
           split; [reflexivity|discriminate]).
    intros (k & evs & Ht & Hk & Hdone)%IH.
    exists (S k). eexists. split.
    { rewrite Ht, Ht2, Ht1, <- !app_assoc. reflexivity. }
    split.
    + rewrite !key_down_texts_app, Hk. reflexivity.
    + intros Hr. by rewrite (Hdone Hr).
Qed.

#[local] Arguments client_send : simpl never.
#[local] Arguments type_chars : simpl never.

(** X7. However a run of [injectCommand] ends, the [text] fields of the
    key-down events it sent are, in order, the first characters of the given
    text; and when it returns, they are all of them, so that put together
    they are the text that was given, and the value returned is
    [{ success: true, injected: text }]. *)
Theorem injectCommand_types_the_text
    (text : list N) (e : Env) (incoming : list json)
    (r : completion json) (w : World) :
  run (InjectCommand text) (initial e incoming) = (r, w) ->
  concat (chars_of text) = text
  /\ exists k,
       key_down_texts (trace w) = map JStr (take k (chars_of text))
       /\ forall v, r = Normal v ->
            k = length (chars_of text)
            /\ v = obj [("success", JBool true); ("injected", JStr text)].
Proof.
  intros Hrun. split; [apply chars_of_concat_both|].
  revert Hrun. simpl.
  unfold injectCommand, findEditorTarget, getTargets, connectToTarget,
    try_finally, client_close, delay, emit, mbind, M_bind, mret, M_ret.
  simpl.
  destruct (list_reply e) as [err|targets];
    [intros [= <- <-]; exists 0; split; [done|discriminate]|].
  destruct (selectEditorTarget targets) as [target|];
    [|intros [= <- <-]; exists 0; split; [done|discriminate]].
  destruct (webSocketDebuggerUrl target) as [[|u wsUrl]|];
    try (intros [= <- <-]; exists 0; split; [done|discriminate]).
  simpl. destruct (connect_reply e); simpl;
    try (intros [= <- <-]; exists 0; split; [done|discriminate]).
  match goal with
  | |- context [client_send ?m ?p ?w0] =>
      destruct (client_send_world m p w0) as [Ht1 _];
      destruct (client_send m p w0) as [[u1|e1|] w1]
  end; simpl in Ht1;
    try (intros [= <- <-]; exists 0; simpl; rewrite Ht1;
         split; [reflexivity|discriminate]).
  match goal with
  | |- context [type_chars ?cs ?w0] =>
      destruct (type_chars cs w0) as [[[]|e2|] w2] eqn:Htype;
      apply type_chars_key_downs in Htype as (k & evs & Ht2 & Hk & Hdone)
  end; simpl in Ht2; intros [= <- <-]; exists k; simpl;
    rewrite Ht2, Ht1, !key_down_texts_app, Hk; simpl; rewrite ?app_nil_r;
    (split; [reflexivity|]); intros v [= <-].
  split; [by apply Hdone|done].
Qed.

(** Two characters, each answered twice, after the focus request. *)
Lemma injectCommand_types_the_text_witness :
  let incoming :=
    map (fun id => obj [("id", JNum id); ("result", JObj [])])
      [1; 2; 3; 4; 5]%Z in
  let out := run (InjectCommand (lit "ok")) (initial sample_env incoming) in
  out.1 = Normal (obj [("success", JBool true); ("injected", str "ok")])
  /\ key_down_texts (trace out.2) = [str "o"; str "k"].
Proof.
  intros incoming out.
  destruct (injectCommand_types_the_text (lit "ok") sample_env incoming
              out.1 out.2) as (_ & k & Hk & Hv); [reflexivity|].
  destruct (Hv _ eq_refl) as [-> _].
  split; [reflexivity|exact Hk].
Defined.

(** ** Commands on an opened session *)

(** With a target that has an address and a connection that opens, a command
    is its [try]/[finally] part run right after the socket opened. *)
Lemma bind_target_opened {A : Type} (k0 : M A) (k : Target -> M A)
    (e : Env) (incoming : list json) (targets : list Target)
    (target : Target) (u : N) (wsUrl : list N) :
  list_reply e = inr targets ->
  selectEditorTarget targets = Some target ->
  webSocketDebuggerUrl target = Some (u :: wsUrl) ->
  connect_reply e = ConnOpen ->
  (findEditorTarget ≫=
     (fun t => match t with
               | None => k0
               | Some target => connectToTarget target;; k target
               end)) (initial e incoming)
  = k target (opened_world e incoming (u :: wsUrl)).
Proof.
  intros Hlist Hsel Hurl Hconn.
  unfold findEditorTarget, getTargets, connectToTarget, mbind, M_bind, mret,
    M_ret. simpl.
  rewrite Hlist. simpl. rewrite Hsel, Hurl. simpl. by rewrite Hconn.
Qed.

(** The first request of a command, answered among the incoming
    messages. *)
Lemma client_send_opened (e : Env) (wsUrl : list N) (method : string)
    (params : json) (strays : list json) (reply : json) (rest : list json) :
  (forall m, m ∈ strays -> handler_throws m = false) ->
  (forall m, m ∈ strays -> prop m "id" <> JNum 1) ->
  prop reply "id" = JNum 1 ->
  exists w2,
    client_send method params (opened_world e (strays ++ reply :: rest) wsUrl)
    = (if truthy (prop reply "error")
       then Throw (new_Error (prop (prop reply "error") "message"))
       else Normal (prop reply "result"), w2)
    /\ trace w2
       = [EvFetch "/json/list"; EvOpen wsUrl;
          EvSend (frame 1 method
                    (match params with JUndefined => JObj [] | p => p end))]
    /\ inbox w2 = rest.
Proof.
  intros Hok Hstr Hid.
  set (w1 := opened_world e (strays ++ reply :: rest) wsUrl).
  destruct (client_send_reply w1 method params strays reply rest)
    as [Hout Hin]; [apply reach_open|done|done|done|done|].
  destruct (client_send_world method params w1) as [Ht _].
  destruct (client_send method params w1) as [r w2]. simpl in *.
  exists w2. by rewrite Hout.
Qed.

(** X8. When the request that inserts the text is answered with an error,
    [injectAndSubmit] throws an Error with the message of that error and
    presses no key: [Input.insertText] is the only request it has sent, and
    closing the session is the last thing it does. *)
Theorem injectAndSubmit_no_enter_after_failure
    (text : json) (e : Env) (targets : list Target) (target : Target)
    (u : N) (wsUrl : list N) (strays : list json) (reply : json)
    (rest : list json) :
  list_reply e = inr targets ->
  selectEditorTarget targets = Some target ->
  webSocketDebuggerUrl target = Some (u :: wsUrl) ->
  connect_reply e = ConnOpen ->
  (forall m, m ∈ strays -> handler_throws m = false) ->
  (forall m, m ∈ strays -> prop m "id" <> JNum 1) ->
  prop reply "id" = JNum 1 ->
  truthy (prop reply "error") = true ->
  let out := run (InjectAndSubmit text) (initial e (strays ++ reply :: rest)) in
  out.1 = Throw (new_Error (prop (prop reply "error") "message"))
  /\ (forall message,
        prop (prop reply "error") "message" = JStr message ->
        out.1 = Throw (JsError "Error" message))
  /\ sent_methods (trace out.2) = [JStr (lit "Input.insertText")]
  /\ closes out.2 = 1
  /\ last (trace out.2) = Some EvClose.
Proof.
  intros Hlist Hsel Hurl Hconn Hok Hstr Hid Herr out. subst out.
  simpl run. unfold injectAndSubmit.
  erewrite bind_target_opened by eassumption.
  unfold try_finally, mbind, M_bind, client_close.
  destruct (client_send_opened e (u :: wsUrl) "Input.insertText"
              (obj [("text", text)]) strays reply rest Hok Hstr Hid)
    as (w2 & -> & Ht & _).
  rewrite Herr. cbn [fst snd trace]. rewrite Ht.
  split; [done|]. split; [|by repeat split].
  intros message Hmsg. by rewrite Hmsg.
Qed.

Lemma injectAndSubmit_no_enter_after_failure_witness :
  let reply :=
    obj [("id", JNum 1); ("error", obj [("message", str "Not focused")])] in
  let out := run (InjectAndSubmit (str "npm test"))
               (initial sample_env [reply]) in
  out.1 = Throw (JsError "Error" (lit "Not focused"))
  /\ sent_methods (trace out.2) = [JStr (lit "Input.insertText")]
  /\ closes out.2 = 1
  /\ last (trace out.2) = Some EvClose.
Proof.
  intros reply out.
  destruct (injectAndSubmit_no_enter_after_failure (str "npm test") sample_env
              [launchpad_window; editor_window] editor_window 119%N
              (lit "s://localhost:9222/devtools/page/A1") [] reply [])
    as (_ & Hmsg & Hrest); try reflexivity.
  - intros m Hm. by apply elem_of_nil in Hm.
  - intros m Hm. by apply elem_of_nil in Hm.
  - split; [|exact Hrest]. apply Hmsg. reflexivity.
Defined.

(** X9. [focusInput], [getChatMessages], [getAgentPanelContent] and
    [getConversationText] return the value the page evaluation produced
    when it is truthy and their fixed fallback otherwise (for the chat
    messages, [{ messages: [], count: 0 }]); a response that carries neither
    error nor result makes them throw a TypeError instead. (The messages
    before the response are ones the handler does not throw on.) *)
Theorem evaluation_result_or_fallback
    (c : command) (fallback : json) (e : Env) (targets : list Target)
    (target : Target) (u : N) (wsUrl : list N) (strays : list json)
    (reply : json) (rest : list json) :
  evaluation_fallback c = Some fallback ->
  list_reply e = inr targets ->
  selectEditorTarget targets = Some target ->
  webSocketDebuggerUrl target = Some (u :: wsUrl) ->
  connect_reply e = ConnOpen ->
  (forall m, m ∈ strays -> handler_throws m = false) ->
  (forall m, m ∈ strays -> prop m "id" <> JNum 1) ->
  prop reply "id" = JNum 1 ->
  truthy (prop reply "error") = false ->
  (run c (initial e (strays ++ reply :: rest))).1
  = (if nullish (prop reply "result")
     then Throw (cannot_read (prop reply "result") "result")
     else
       let value := opt_prop (prop (prop reply "result") "result") "value" in
       Normal (if truthy value then value else fallback)).
Proof.
  intros Hfall Hlist Hsel Hurl Hconn Hok Hstr Hid Herr.
  destruct c; try discriminate Hfall; injection Hfall as <-; simpl run;
    unfold focusInput, getChatMessages, getAgentPanelContent,
      getConversationText;
    (erewrite bind_target_opened by eassumption);
    unfold try_finally, mbind, M_bind, client_close;
    match goal with
    | |- context [client_send ?m ?p (opened_world _ _ _)] =>
        destruct (client_send_opened e (u :: wsUrl) m p strays reply rest
                    Hok Hstr Hid) as (w2 & -> & _ & _)
    end;
    rewrite Herr; unfold value_or, get_prop, mbind, M_bind, mret, M_ret,
      throw, js_or;
    destruct (nullish (prop reply "result")); simpl; try done;
    by destruct (truthy _).
Qed.

(** The page has no conversation: the evaluation yields [undefined]. *)
Lemma evaluation_result_or_fallback_witness :
  let reply :=
    obj [("id", JNum 1);
         ("result", obj [("result", obj [("type", str "undefined")])])] in
  (run GetChatMessages (initial sample_env [reply])).1
  = Normal (obj [("messages", JArr []); ("count", JNum 0)]).
Proof.
  intros reply.
  apply (evaluation_result_or_fallback GetChatMessages
           (obj [("messages", JArr []); ("count", JNum 0)]) sample_env
           [launchpad_window; editor_window] editor_window 119%N
           (lit "s://localhost:9222/devtools/page/A1") [] reply []);
    try reflexivity; intros m Hm; by apply elem_of_nil in Hm.
Defined.

(** ** [getWorkspacePath] from the page to the folder *)




(** ** What the chat snippet returns *)

Lemma scan_selectors_cases (q : string -> list Element)
    (now : nat -> list N) (sels : list string) :
  scan_selectors q now sels [] = []
  \/ exists sel,
       sel ∈ sels /\ scan_selectors q now sels [] = accepted now (q sel).
Proof.
  induction sels as [|s sels IH]; simpl; [by left|].
  rewrite foldl_visit_nil.
  destruct (Nat.ltb_spec 0 (length (accepted now (q s)))) as [Hlen|Hlen].
  - right. exists s. split; [apply list_elem_of_here|done].
  - destruct (accepted now (q s)) eqn:Hacc; [|simpl in Hlen; lia].
    destruct IH as [IH|(sel & Hin & IH)]; [by left|].
    right. exists sel. split; [by apply list_elem_of_further|done].
Qed.

(** The record at position [k] of a selector's records was stamped at the
    push number [k]. *)
Lemma accepted_lookup (now : nat -> list N) (els : list Element) (k : nat)
    (m : ChatMessage) :
  accepted now els !! k = Some m ->
  exists el, el ∈ els /\ accepts el = true /\ m = message_of (now k) el.
Proof.
  unfold accepted. rewrite list_lookup_imap.
  destruct (List.filter accepts els !! k) as [el|] eqn:Hk; [|done].
  simpl. intros [= <-].
  apply list_elem_of_lookup_2, list_elem_of_In, List.filter_In in Hk
    as [Hin Hacc].
  exists el. by rewrite list_elem_of_In.
Qed.

Lemma eq_cs_lower_unit (x c : N) :
  is_lower_ascii x = true -> eq_cs x (lower_unit c) = eq_ci x c.
Proof.
  unfold eq_cs, eq_ci, fold_case, lower_unit, is_upper_ascii, is_lower_ascii.
  intros Hx. rewrite Hx. apply andb_true_iff in Hx as [Hx1 Hx2].
  apply N.leb_le in Hx1, Hx2.
  destruct (N.leb_spec 65 c), (N.leb_spec c 90), (N.leb_spec 97 c),
    (N.leb_spec c 122), (N.leb_spec 192 c), (N.leb_spec c 222),
    (N.eqb_spec c 215); simpl;
    apply Bool.eq_iff_eq_true; rewrite !N.eqb_eq; lia.
Qed.

Lemma starts_with_lower (p s : list N) :
  Forall (fun x => is_lower_ascii x = true) p ->
  starts_with eq_cs p (toLowerCase s) = starts_with eq_ci p s.
Proof.
  intros Hp. revert s.
  induction Hp as [|x p Hx Hp IH]; intros [|c s]; simpl; try done.
  by rewrite IH, eq_cs_lower_unit.
Qed.

(** Looking for small ASCII letters in the lower-cased string is looking
    for them in the string irrespective of case. *)
Lemma includes_lower (s p : list N) :
  Forall (fun x => is_lower_ascii x = true) p ->
  includes (toLowerCase s) p = includes_ci s p.
Proof.
  intros Hp. unfold includes, includes_ci, indexOf.
  enough (H : forall k, index_from eq_cs p (toLowerCase s) k
                        = index_from eq_ci p s k) by (by rewrite H).
  induction s as [|c s IH]; intros k.
  - pose proof (starts_with_lower p [] Hp) as H0.
    change (toLowerCase []) with (@nil N) in *.
    cbn [index_from]. by rewrite H0.
  - pose proof (starts_with_lower p (c :: s) Hp) as Hc.
    change (toLowerCase (c :: s)) with (lower_unit c :: toLowerCase s) in *.
    cbn [index_from]. rewrite Hc.
    destruct (starts_with eq_ci p (c :: s)); [done|]. apply IH.
Qed.

Lemma role_of_ci (el : Element) :
  role_of el
  = if includes_ci (className el) (lit "user")
       || includes_ci (className el) (lit "human")
    then user else agent.
Proof.
  unfold role_of. cbv zeta.
  rewrite !includes_lower; [done| |]; by repeat constructor.
Qed.

Lemma accepts_content (el : Element) :
  accepts el = true ->
  exists raw,
    innerText el = Some raw
    /\ 30 < length (trim raw) < 5000
    /\ forall stamp, content (message_of stamp el) = take 1500 (trim raw).
Proof.
  unfold accepts, message_of, substring. simpl.
  destruct (innerText el) as [raw|]; [|done]. simpl.
  unfold accepts_text.
  rewrite !andb_true_iff, !Nat.ltb_lt. intros ((((_ & _) & H30) & H5000) & _).
  exists raw. split; [done|]. split; [lia|].
  intros _. by rewrite drop_0.
Qed.

(** X11. The chat snippet returns at most 20 records, the last ones of the
    [count] it accepted, in the order pushed. The record at position [i] of
    the result carries the time read at its own push, which is push number
    [count - length result + i] of the call. Each record was made from an
    element that one of the conversation selectors matched and the
    classifier accepted: its content is the first 1500 code units of the
    trimmed text of the element, more than 30 of them, and its role is
    [user] when the class of the element contains "user" or "human" in any
    letter case, and [agent] otherwise. *)
Theorem chat_snippet_bounds
    (q : string -> list Element) (now : nat -> list N) :
  let out := chat_snippet q now in
  length out.1 = Nat.min out.2 20
  /\ forall i m, out.1 !! i = Some m ->
       timestamp m = now (out.2 - length out.1 + i)
       /\ 30 < length (content m) <= 1500
       /\ exists sel el raw,
            sel ∈ conversationSelectors /\ el ∈ q sel
            /\ accepts el = true
            /\ innerText el = Some raw
            /\ content m = take 1500 (trim raw)
            /\ role m
               = (if includes_ci (className el) (lit "user")
                     || includes_ci (className el) (lit "human")
                  then user else agent).
Proof.
  unfold chat_snippet. cbn [fst snd].
  set (all := scan_selectors q now conversationSelectors []).
  assert (Hlen : length (drop (length all - 20) all)
                 = Nat.min (length all) 20) by (rewrite length_drop; lia).
  split; [done|].
  intros i m Hm. rewrite Hlen.
  rewrite lookup_drop in Hm.
  replace (length all - Nat.min (length all) 20 + i)
    with (length all - 20 + i) by lia.
  destruct (scan_selectors_cases q now conversationSelectors)
    as [Hnil|(sel & Hsel & Hscan)]; fold all in Hnil || fold all in Hscan;
    clearbody all; subst all.
  - done.
  - apply accepted_lookup in Hm as (el & Hel & Hacc & ->).
    destruct (accepts_content el Hacc) as (raw & Hraw & Hbound & Hcontent).
    split; [done|]. split.
    + rewrite Hcontent, length_take. lia.
    + exists sel, el, raw. rewrite Hcontent.
      repeat split; try done. apply role_of_ci.
Qed.

(** Two messages in one container, stamped by a clock that ticks at every
    push. *)
Lemma chat_snippet_bounds_witness :
  let q (sel : string) :=
    if String.eqb sel ".agent-response"
    then [ {| innerText := Some prose; className := lit "agent" |};
           {| innerText := Some prose; className := lit "human-turn" |} ]
    else [] in
  let now (k : nat) := [N.of_nat k] in
  exists first second,
    (chat_snippet q now).1 = [first; second]
    /\ timestamp first = [0%N] /\ timestamp second = [1%N]
    /\ role first = agent /\ role second = user.
Proof.
  intros q now.
  pose proof (chat_snippet_bounds q now) as [_ Hall].
  eexists _, _. split; [vm_compute; reflexivity|]. split; [|split].
  - exact (proj1 (Hall 0 _ eq_refl)).
  - exact (proj1 (Hall 1 _ eq_refl)).
  - split; reflexivity.
Defined.

(** ** More on the blacklist *)

Lemma starts_with_strip (p u ws : list N) (z : N) :
  last p = Some z -> solid z ->
  Forall (fun c => is_space c = true) ws ->
  starts_with eq_ci p (u ++ ws) = true -> starts_with eq_ci p u = true.
Proof.
  intros Hz Hsolid Hws. revert u.
  induction ws as [|c ws IH] using rev_ind; intros u.
  - by rewrite app_nil_r.
  - apply Forall_app in Hws as [Hws Hc]. apply Forall_inv in Hc.
    rewrite app_assoc. intros H. apply IH; [done|].
    by apply (starts_with_snoc p (u ++ ws) c z Hz (Hsolid c Hc)).
Qed.

Lemma starts_with_trimEnd (p u : list N) (z : N) :
  last p = Some z -> solid z ->
  starts_with eq_ci p u = true -> starts_with eq_ci p (trimEnd u) = true.
Proof.
  intros Hz Hsolid H.
  destruct (trimEnd_split u) as (ws & Hsplit & Hws).
  rewrite Hsplit in H. by apply (starts_with_strip p _ ws z).
Qed.

Lemma anchored_prefix_ends (prefix : string) :
  prefix ∈ anchored_prefixes ->
  exists z, last (lit prefix) = Some z /\ is_lower_ascii z = true.
Proof.
  unfold anchored_prefixes. intros H.
  repeat (apply elem_of_cons in H as [->|H]; [by eexists|]).
  by apply elem_of_nil in H.
Qed.

Lemma anchored_prefix_listed (prefix : string) (t : list N) :
  prefix ∈ anchored_prefixes ->
  starts_with eq_ci (lit prefix) t = true ->
  existsb (fun pattern => pattern t) blacklist = true.
Proof.
  unfold anchored_prefixes. intros H Hstart.
  repeat (apply elem_of_cons in H as [->|H];
          [cbn [existsb blacklist prefix_ci]; rewrite Hstart;
           by rewrite ?orb_true_r|]).
  by apply elem_of_nil in H.
Qed.

(** X12. A text that, leading white space apart, begins with one of the
    anchored words of the blacklist in any letter case ("pro", "model",
    "high", "low", "retry", ...) is rejected whatever follows: "Problem
    solved ..." or "Highlighting ..." never becomes a record. *)
Theorem anchored_prefixes_reject_prose
    (prefix : string) (raw cls : list N) :
  prefix ∈ anchored_prefixes ->
  starts_with eq_ci (lit prefix) (trimStart raw) = true ->
  isBlacklisted raw = true
  /\ accepts {| innerText := Some raw; className := cls |} = false.
Proof.
  intros Hin Hstart.
  destruct (anchored_prefix_ends prefix Hin) as (z & Hz & Hlow).
  assert (Htrim : starts_with eq_ci (lit prefix) (trim raw) = true)
    by (by apply (starts_with_trimEnd _ _ z);
        [|apply lower_letter_solid|]).
  assert (Hlisted := anchored_prefix_listed prefix (trim raw) Hin Htrim).
  assert (Hb : forall t, trim t = trim raw -> isBlacklisted t = true).
  { intros t Ht. unfold isBlacklisted. rewrite Ht.
    destruct (_ <? 20); [done|]. by destruct (_ <? 4). }
  split; [by apply Hb|].
  unfold accepts, accepts_text. simpl.
  rewrite (Hb (trim raw)) by apply trim_idem.
  simpl. by rewrite andb_false_r.
Qed.

Lemma anchored_prefixes_reject_prose_witness :
  let raw :=
    lit "  Problem solved: the parser now accepts empty input. Please pull and retest." in
  isBlacklisted raw = true
  /\ accepts {| innerText := Some raw; className := [] |} = false.
Proof.
  intros raw.
  apply (anchored_prefixes_reject_prose "pro" raw []).
  - unfold anchored_prefixes. do 7 apply list_elem_of_further.
    apply list_elem_of_here.
  - reflexivity.
Defined.

(** X13. The pattern for a bare role name, [/^(agent|assistant|user)$/i],
    never decides: a text it matches has at most 9 code units and was
    already rejected as too short, so the classifier is the same function
    with that entry taken out of the blacklist. *)
Theorem role_pattern_is_shadowed (text : list N) :
  (whole_ci ["agent"; "assistant"; "user"]%string (trim text) = true ->
   length (trim text) <= 9)
  /\ isBlacklisted text
     = (let trimmed := trim text in
        (length trimmed <? 20)
        || (length (split_unit 32 trimmed) <? 4)
        || existsb (fun pattern => pattern trimmed)
             (take 4 blacklist ++ drop 5 blacklist)).
Proof.
  assert (Hshort : whole_ci ["agent"; "assistant"; "user"]%string
                     (trim text) = true -> length (trim text) <= 9).
  { unfold whole_ci. cbn [existsb].
    rewrite !orb_true_iff, !andb_true_iff, !Nat.eqb_eq.
    cbn [length lit list_ascii_of_string map].
    intros [[_ ->]|[[_ ->]|[[_ ->]|[=]]]]; lia. }
  split; [exact Hshort|].
  unfold isBlacklisted. cbv zeta.
  destruct (Nat.ltb_spec (length (trim text)) 20) as [|Hlong]; [done|].
  destruct (_ <? 4); [done|]. cbn [orb].
  change blacklist with
    (take 4 blacklist
       ++ whole_ci ["agent"; "assistant"; "user"]%string :: drop 5 blacklist)
    at 1.
  rewrite !existsb_app.
  change (existsb ?f (?p :: ?l)) with (f p || existsb f l). cbv beta.
  destruct (whole_ci _ (trim text)) eqn:Hw; [|by rewrite orb_false_l].
  specialize (Hshort eq_refl). lia.
Qed.

(** ** The project name in the title *)

Lemma span_no_hyphen_app (name rest : list N) :
  Forall (fun c => c <> 45%N) name ->
  span_no_hyphen (name ++ 45%N :: rest) = (name, 45%N :: rest).
Proof.
  induction 1 as [|c name Hc _ IH]; [done|].
  simpl. destruct (N.eqb_spec c 45); [done|]. by rewrite IH.
Qed.

Lemma span_no_hyphen_all (name : list N) :
  Forall (fun c => c <> 45%N) name -> span_no_hyphen name = (name, []).
Proof.
  induction 1 as [|c name Hc _ IH]; [done|].
  simpl. destruct (N.eqb_spec c 45); [done|]. by rewrite IH.
Qed.

(** X14. The project name is what stands before the first hyphen of the
    title, trimmed, provided that part is not empty and the hyphen is
    followed, after optional white space, by "Antigravity". A title without
    hyphen gives no name, and so does a title whose project name itself
    contains a hyphen, since the match stops at that hyphen. *)
Theorem project_name_before_first_hyphen (name rest : list N) :
  Forall (fun c => c <> 45%N) name ->
  project_name (name ++ 45%N :: rest)
  = (if negb (is_empty name)
        && starts_with eq_cs (lit "Antigravity") (trimStart rest)
     then Some (trim name) else None)
  /\ project_name name = None.
Proof.
  intros Hname. unfold project_name.
  rewrite span_no_hyphen_app, span_no_hyphen_all by done.
  split; by destruct name.
Qed.

(** A project called "my-app". *)
Lemma project_name_before_first_hyphen_witness :
  project_name (lit "my-app - Antigravity - index.ts") = None
  /\ project_name (lit "my") = None.
Proof.
  apply (project_name_before_first_hyphen (lit "my")
           (lit "app - Antigravity - index.ts")).
  repeat constructor; discriminate.
Defined.

(** ** Splitting and joining Unix paths *)

Lemma split_runs_flag (cls : N -> bool) (s : list N) :
  List.filter nonempty_segment (split_runs cls true s)
  = List.filter nonempty_segment (split_runs cls false s).
Proof. destruct s as [|c s]; [done|]. simpl. by destruct (cls c). Qed.

Lemma split_runs_piece (cls : N -> bool) (p s : list N) :
  Forall (fun c => cls c = false) p ->
  exists h t,
    split_runs cls false s = h :: t
    /\ split_runs cls false (p ++ s) = (p ++ h) :: t.
Proof.
  induction 1 as [|c p Hc _ (h & t & Hs & IH)].
  - destruct s as [|c s]; simpl; [by eexists _, _|].
    destruct (cls c); [by eexists _, _|].
    destruct (split_runs cls false s); by eexists _, _.
  - exists h, t. split; [done|]. simpl. by rewrite Hc, IH.
Qed.

Lemma split_runs_free (cls : N -> bool) (b : bool) (s : list N) :
  Forall (Forall (fun c => cls c = false)) (split_runs cls b s).
Proof.
  revert b. induction s as [|c s IH]; intros b; simpl.
  - repeat constructor.
  - destruct (cls c) eqn:Hc.
    + destruct b; [apply IH|]. constructor; [constructor|apply IH].
    + specialize (IH false).
      destruct (split_runs cls false s) as [|piece pieces].
      * repeat constructor. done.
      * apply Forall_cons in IH as [Hp Hps].
        constructor; [by constructor|done].
Qed.

(** A Unix path written from segments reads back as those segments. *)
Lemma path_parts_join (parts : list (list N)) :
  Forall (fun p => p <> [] /\ Forall (fun c => is_slash c = false) p) parts ->
  path_parts ([47%N] ++ join [47%N] parts) false = parts.
Proof.
  intros Hparts. unfold path_parts. fold nonempty_segment.
  change (split_runs is_slash false ([47%N] ++ join [47%N] parts))
    with ([] :: split_runs is_slash true (join [47%N] parts)).
  cbn [List.filter nonempty_segment is_empty negb].
  rewrite split_runs_flag.
  induction Hparts as [|p parts [Hne Hfree] Hparts IH]; [done|].
  destruct parts as [|q parts].
  - simpl join.
    destruct (split_runs_piece is_slash p [] Hfree) as (h & t & Hs & Hp).
    injection Hs as <- <-. rewrite app_nil_r in Hp. rewrite Hp.
    simpl. by destruct p.
  - change (join [47%N] (p :: q :: parts))
      with (p ++ 47%N :: join [47%N] (q :: parts)).
    destruct (split_runs_piece is_slash p
                (47%N :: join [47%N] (q :: parts)) Hfree)
      as (h & t & Hs & Hp).
    injection Hs as <- <-. rewrite Hp, app_nil_r.
    cbn [List.filter]. unfold nonempty_segment at 1.
    destruct p as [|c p]; [done|]. cbn [is_empty negb].
    f_equal. rewrite split_runs_flag. exact IH.
Qed.

Lemma path_parts_segments (filePath : list N) :
  Forall (fun p => p <> [] /\ Forall (fun c => is_slash c = false) p)
    (path_parts filePath false).
Proof.
  unfold path_parts. apply Forall_forall. intros p Hin.
  apply list_elem_of_In, List.filter_In in Hin as [Hin Hne].
  split; [by destruct p|].
  pose proof (split_runs_free is_slash false filePath) as Hfree.
  rewrite Forall_forall in Hfree. apply Hfree. by apply list_elem_of_In.
Qed.

Lemma lower_unit_cases (c : N) :
  (capital c /\ lower_unit c = (c + 32)%N)
  \/ (~ capital c /\ lower_unit c = c).
Proof.
  unfold lower_unit, capital, is_upper_ascii.
  destruct (N.leb_spec 65 c), (N.leb_spec c 90), (N.leb_spec 192 c),
    (N.leb_spec c 222), (N.eqb_spec c 215); simpl; lia.
Qed.

Lemma lower_unit_same (a b : N) :
  lower_unit a = lower_unit b <-> same_letter a b.
Proof.
  unfold same_letter.
  destruct (lower_unit_cases a) as [[Ha ->]|[Ha ->]],
    (lower_unit_cases b) as [[Hb ->]|[Hb ->]];
    unfold capital in *; lia.
Qed.

(** The comparison of line 626, said without [toLowerCase]. *)
Lemma toLowerCase_same (p q : list N) :
  toLowerCase p = toLowerCase q <-> same_ignoring_case p q.
Proof.
  unfold toLowerCase, same_ignoring_case. revert q.
  induction p as [|a p IH]; intros [|b q]; simpl.
  - split; [constructor|done].
  - split; [done|]. intros H. inversion H.
  - split; [done|]. intros H. inversion H.
  - split.
    + intros [= Hab Hpq]. constructor; [by apply lower_unit_same|by apply IH].
    + intros H. inversion H as [|? ? ? ? Hab Hpq]; subst.
      f_equal; [by apply lower_unit_same|by apply IH].
Qed.

Lemma match_index_found (name : list N) (parts : list (list N))
    (k i : nat) (part : list N) :
  parts !! i = Some part ->
  toLowerCase part = toLowerCase name ->
  (forall j other, j < i -> parts !! j = Some other ->
     toLowerCase other <> toLowerCase name) ->
  match_index name parts k = Some (k + i).
Proof.
  revert k i. induction parts as [|p parts IH]; intros k i Hi Heq Hmin;
    [done|].
  simpl. destruct i as [|i]; simpl in Hi.
  - injection Hi as ->. rewrite bool_decide_eq_true_2 by done.
    f_equal. lia.
  - rewrite bool_decide_eq_false_2 by (apply (Hmin 0 p); [lia|done]).
    rewrite (IH (S k) i); [f_equal; lia|done|done|].
    intros j other Hlt Hj. apply (Hmin (S j) other); [lia|done].
Qed.

Lemma match_index_none (name : list N) (parts : list (list N)) (k : nat) :
  (forall part, part ∈ parts -> toLowerCase part <> toLowerCase name) ->
  match_index name parts k = None.
Proof.
  revert k. induction parts as [|p parts IH]; intros k Hno; [done|].
  simpl. rewrite bool_decide_eq_false_2
    by (apply Hno; apply list_elem_of_here).
  apply IH. intros part Hin. apply Hno. by apply list_elem_of_further.
Qed.

(** X15. For a Unix path and a project name written in U+0000..U+00FF, the
    folder [getWorkspacePath] computes is an ancestor of the file: read
    back, its segments are the first segments of the file path. They are
    all but the last one when there is no project name, when the name is
    empty, and when no segment is the name irrespective of case. Otherwise
    they are the segments up to the first one that is the name irrespective
    of case, even if a later segment is the name too. *)
Theorem unix_workspace_is_ancestor
    (filePath : list N) (projectName : option (list N)) :
  latin1 filePath ->
  (forall name, projectName = Some name -> latin1 name) ->
  let parts := path_parts filePath false in
  let folder :=
    path_parts (resolve_workspace filePath false projectName) false in
  folder `prefix_of` parts
  /\ (projectName = None -> folder = drop_last parts)
  /\ (forall name,
        projectName = Some name ->
        name = []
        \/ (forall part, part ∈ parts -> ~ same_ignoring_case part name) ->
        folder = drop_last parts)
  /\ (forall name i part,
        projectName = Some name -> name <> [] ->
        parts !! i = Some part ->
        same_ignoring_case part name ->
        (forall j other, j < i -> parts !! j = Some other ->
           ~ same_ignoring_case other name) ->
        folder = take (S i) parts /\ last folder = Some part).
Proof.
  intros _ _ parts folder.
  assert (Hparts := path_parts_segments filePath). fold parts in Hparts.
  assert (Htake : forall k,
             path_parts ([47%N] ++ join [47%N] (take k parts)) false
             = take k parts)
    by (intros k; apply path_parts_join; by apply Forall_take).
  assert (Hfolder : exists k, folder = take k parts).
  { subst folder. unfold resolve_workspace. fold parts.
    destruct (match projectName with
              | Some name =>
                  if is_empty name then None else match_index name parts 0
              | None => None
              end) as [i|].
    - exists (i + 1). by rewrite Htake.
    - exists (length parts - 1). unfold drop_last. by rewrite Htake. }
  split; [|split; [|split]].
  - destruct Hfolder as (k & ->). apply prefix_take.
  - intros ->. subst folder. unfold resolve_workspace. fold parts.
    unfold drop_last. apply Htake.
  - intros name -> Hno. subst folder. unfold resolve_workspace. fold parts.
    assert (Hfound : (if is_empty name then None
                      else match_index name parts 0) = None).
    { destruct Hno as [->|Hno]; [done|].
      destruct (is_empty name); [done|].
      apply match_index_none. intros part Hin Heq.
      apply (Hno part Hin). by apply toLowerCase_same. }
    rewrite Hfound. unfold drop_last. apply Htake.
  - intros name i part -> Hne Hi Hsame Hmin. subst folder.
    unfold resolve_workspace. fold parts.
    assert (Hfound : (if is_empty name then None
                      else match_index name parts 0) = Some i).
    { destruct name as [|c name]; [done|]. simpl.
      apply (match_index_found (c :: name) parts 0 i part);
        [done|by apply toLowerCase_same|].
      intros j other Hlt Hj Heq. apply (Hmin j other Hlt Hj).
      by apply toLowerCase_same. }
    rewrite Hfound, Htake, Nat.add_1_r.
    split; [done|].
    rewrite last_lookup, length_take.
    apply lookup_lt_Some in Hi as Hlt.
    replace (Nat.pred (S i `min` length parts)) with i by lia.
    rewrite lookup_take_lt by lia. done.
Qed.

(** The project folder is found in lower case, and a later folder of the
    same name in capitals is not taken for it. *)
Lemma unix_workspace_is_ancestor_witness :
  path_parts
    (resolve_workspace (lit "/Users/alice/myproject/src/MYPROJECT/index.ts")
       false (Some (lit "MyProject"))) false
  = [lit "Users"; lit "alice"; lit "myproject"].
Proof.
  destruct (unix_workspace_is_ancestor
              (lit "/Users/alice/myproject/src/MYPROJECT/index.ts")
              (Some (lit "MyProject")))
    as (_ & _ & _ & Hfirst).
  - apply Forall_forall. intros c Hc. apply list_elem_of_In in Hc.
    vm_compute in Hc. intuition (subst; reflexivity).
  - intros name [= <-]. apply Forall_forall. intros c Hc.
    apply list_elem_of_In in Hc.
    vm_compute in Hc. intuition (subst; reflexivity).
  - destruct (Hfirst (lit "MyProject") 2 (lit "myproject")) as [Hfolder _].
    + reflexivity.
    + discriminate.
    + reflexivity.
    + apply toLowerCase_same. reflexivity.
    + intros j other Hlt Hj Hsame. apply toLowerCase_same in Hsame.
      destruct j as [|[|j]]; [| |lia];
        injection Hj as <-; discriminate Hsame.
    + exact Hfolder.
Defined.

(** ** The launcher *)

Lemma findViaCommand_exists (host : Host) (cmd p : list N) :
  findViaCommand host cmd = Some p -> p <> [] /\ existsSync host p = true.
Proof.
  unfold findViaCommand. destruct (exec_stdout host cmd) as [stdout|]; [|done].
  cbv zeta.
  destruct (negb (is_empty _) && existsSync host _) eqn:Hok; [|done].
  intros [= <-]. apply andb_true_iff in Hok as [Hne Hex].
  split; [|done]. intros Hnil. by rewrite Hnil in Hne.
Qed.

Lemma findAntigravityPath_exists (host : Host)
    (table : list N -> option (list (list N))) (p : list N) :
  findAntigravityPath host table = Some p ->
  p <> [] /\ existsSync host p = true.
Proof.
  unfold findAntigravityPath. cbv zeta.
  destruct (List.find _ _) as [q|] eqn:Hfind.
  - intros [= <-]. apply List.find_some in Hfind as [_ Hok].
    apply andb_true_iff in Hok as [Hne Hex].
    split; [|done]. intros Hnil. by rewrite Hnil in Hne.
  - case_bool_decide; apply findViaCommand_exists.
Qed.

(** X16. Whatever the candidate table, the environment and the output of
    [where] / [which] are, the executable the launcher settles on is a
    non-empty path that exists on the file system; candidates that do not
    exist are never launched. *)
Theorem antigravityPath_exists (host : Host) (p : list N) :
  antigravityPath host = Some p ->
  p <> [] /\ existsSync host p = true.
Proof. apply findAntigravityPath_exists. Qed.

(** X17. A custom path in [ANTIGRAVITY_PATH] that exists is the executable
    chosen, before every built-in candidate; one that does not exist is
    ignored without notice, and the search goes on as if the variable were
    not set. *)
Theorem custom_path_override (host : Host) (customPath : list N) :
  ANTIGRAVITY_PATH host = Some customPath ->
  customPath <> [] ->
  antigravityPath host
  = if existsSync host customPath then Some customPath
    else findAntigravityPath host (ANTIGRAVITY_PATHS host).
Proof.
  intros Henv Hne. unfold antigravityPath, custom_paths. rewrite Henv.
  destruct customPath as [|c customPath]; [done|]. cbn [is_empty negb andb].
  destruct (existsSync host (c :: customPath)) eqn:Hex; [|done].
  unfold findAntigravityPath. cbv zeta.
  rewrite bool_decide_eq_true_2 by done. simpl. by rewrite Hex.
Qed.

(** ** The address shown for the dashboard *)

Lemma getLocalIPs_elem (nets : list (list N * list NetAddress)) (ip : list N) :
  ip ∈ getLocalIPs nets <->
  exists name addrs net,
    (name, addrs) ∈ nets /\ net ∈ addrs
    /\ family net = lit "IPv4" /\ internal net = false /\ address net = ip.
Proof.
  unfold getLocalIPs. rewrite list_elem_of_In, in_concat. split.
  - intros (l & ([name addrs] & <- & Hentry)%in_map_iff & Hip).
    apply in_map_iff in Hip as (net & <- & Hnet).
    apply List.filter_In in Hnet as [Hnet Hok].
    apply andb_true_iff in Hok as [Hfam%bool_decide_eq_true Hint%negb_true_iff].
    exists name, addrs, net. by rewrite !list_elem_of_In.
  - intros (name & addrs & net & Hentry%list_elem_of_In & Hnet%list_elem_of_In
            & Hfam & Hint & <-).
    eexists. split; [apply in_map_iff; by exists (name, addrs)|].
    apply in_map_iff. exists net. split; [done|].
    apply List.filter_In. split; [done|].
    simpl. by rewrite Hint, bool_decide_eq_true_2.
Qed.

(** X18. The address the launcher prints for the dashboard is the address
    of an IPv4 interface that is not internal, a 192.168.* one whenever the
    host has one; the placeholder "YOUR_IP" is printed only when the host
    has no such interface or the first one has an empty address. *)
Theorem mainIP_is_external_address (nets : list (list N * list NetAddress)) :
  let ips := getLocalIPs nets in
  ((exists ip, ip ∈ ips /\ starts_with eq_cs (lit "192.168.") ip = true) ->
   mainIP ips ∈ ips
   /\ starts_with eq_cs (lit "192.168.") (mainIP ips) = true)
  /\ (mainIP ips = lit "YOUR_IP" /\ (ips = [] \/ head ips = Some [])
      \/ exists name addrs net,
           (name, addrs) ∈ nets /\ net ∈ addrs
           /\ family net = lit "IPv4" /\ internal net = false
           /\ address net = mainIP ips).
Proof.
  intros ips. unfold mainIP.
  destruct (List.find _ ips) as [found|] eqn:Hfind.
  - apply List.find_some in Hfind as [Hin Hpre].
    apply list_elem_of_In in Hin.
    split; [done|]. right. by apply getLocalIPs_elem.
  - split.
    + intros (ip & Hin%list_elem_of_In & Hpre).
      by rewrite (List.find_none _ _ Hfind ip Hin) in Hpre.
    + destruct ips as [|ip rest] eqn:Hips; [left; by split; [|left]|].
      destruct ip as [|c ip]; [left; by split; [|right]|].
      right. apply getLocalIPs_elem. fold ips. rewrite Hips.
      apply list_elem_of_here.
Qed.

Lemma antigravityPath_exists_witness :
  lit "/opt/Antigravity/antigravity" <> []
  /\ existsSync linux_host (lit "/opt/Antigravity/antigravity") = true.
Proof.
  apply (antigravityPath_exists linux_host (lit "/opt/Antigravity/antigravity")).
  reflexivity.
Defined.

Lemma custom_path_override_witness :
  antigravityPath linux_host_custom = Some (lit "/opt/Antigravity/antigravity").
Proof.
  rewrite (custom_path_override linux_host_custom (lit "/snap/bin/antigravity"));
    [reflexivity|reflexivity|discriminate].
Defined.

(** ** Labels read as Windows paths *)

Lemma windows_scan_pair (src : list N) (k : nat) (ch : N) :
  src !! k = Some ch -> is_ascii_letter ch = true ->
  src !! S k = Some 58%N ->
  exists path, windows_scan src = Some path.
Proof.
  revert k. induction src as [|c src IH]; intros k Hk Hletter Hcolon; [done|].
  destruct src as [|next rest]; [by destruct k|].
  destruct k as [|k].
  - simpl in Hk, Hcolon. injection Hk as ->. injection Hcolon as ->.
    cbn [windows_scan]. rewrite Hletter. simpl. by eexists.
  - cbn [windows_scan].
    destruct (is_ascii_letter c && (next =? 58)%N); [by eexists|].
    by apply (IH k).
Qed.

(** X19. A label of five or more code units in which an ASCII letter is
    directly followed by a colon is read as a Windows path, whatever else
    it holds: the Unix roots are not tried, so a Unix path in such a label
    (as in "/home/alice/app/main.rs - Error: unused variable") is not
    found. *)
Theorem drive_pattern_takes_precedence (src : list N) (k : nat) (ch : N) :
  5 <= length src ->
  src !! k = Some ch -> is_ascii_letter ch = true ->
  src !! S k = Some 58%N ->
  exists path, path_of_source src = Some (path, true).
Proof.
  intros Hlen Hk Hletter Hcolon. unfold path_of_source.
  destruct (Nat.ltb_spec (length src) 5); [lia|].
  destruct (windows_scan_pair src k ch Hk Hletter Hcolon) as [path ->].
  by exists path.
Qed.

Lemma drive_pattern_takes_precedence_witness :
  exists path,
    path_of_source (lit "/home/alice/app/main.rs - Error: unused variable")
    = Some (path, true).
Proof.
  apply (drive_pattern_takes_precedence
           (lit "/home/alice/app/main.rs - Error: unused variable") 30 114%N);
    [vm_compute; lia|reflexivity|reflexivity|reflexivity].
Defined.

(** ** A target that never answers *)

Lemma on_message_ws_open (msg : json) (s : Session) :
  ws_open (on_message msg s) = ws_open s.
Proof.
  unfold on_message. destruct (truthy _); [|done].
  by destruct (pending_get _ _).
Qed.

Lemma await_unanswered (h : nat) (id : Z) (strays : list json) (s : Session) :
  reachable s ->
  pending s !! id = Some h ->
  (forall m, m ∈ strays -> prop m "id" <> JNum id) ->
  exists s', await h s strays = (None, s', []) /\ ws_open s' = ws_open s.
Proof.
  revert s. induction strays as [|m strays IH]; intros s Hr Hp Hstr;
    destruct (reachable_inv s Hr) as [_ _ Hw _]; simpl; rewrite (Hw _ _ Hp).
  - by exists s.
  - destruct (handler_throws m); [by exists s|].
    destruct (IH (on_message m s)) as (s' & -> & Hopen).
    + by constructor.
    + apply on_message_keeps_pending; [|done]. apply Hstr, list_elem_of_here.
    + intros m' Hm'. apply Hstr. by apply list_elem_of_further.
    + exists s'. by rewrite Hopen, on_message_ws_open.
Qed.

Lemma client_send_unanswered (e : Env) (wsUrl : list N) (method : string)
    (params : json) (strays : list json) :
  (forall m, m ∈ strays -> prop m "id" <> JNum 1) ->
  exists w2,
    client_send method params (opened_world e strays wsUrl) = (Stuck, w2)
    /\ closes w2 = 0 /\ ws_open (session w2) = true.
Proof.
  intros Hstr. unfold client_send, send, opened_world. cbn [session inbox].
  match goal with
  | |- context [await ?h ?s1 strays] =>
      destruct (await_unanswered h 1%Z strays s1) as (s' & -> & Hopen);
        [apply (reach_send method params new_session reach_open)
        |apply lookup_insert_eq|done|]
  end.
  eexists. split; [reflexivity|]. by split.
Qed.

(** X20. No request has a timeout: when no incoming message ever carries the
    identifier of a command's first request, the command stays in its
    [await], its [finally] is not reached, [close()] is not called and the
    socket is left open. *)
Theorem unanswered_request_hangs_command
    (c : command) (e : Env) (targets : list Target) (target : Target)
    (u : N) (wsUrl : list N) (incoming : list json) :
  list_reply e = inr targets ->
  selectEditorTarget targets = Some target ->
  webSocketDebuggerUrl target = Some (u :: wsUrl) ->
  connect_reply e = ConnOpen ->
  (forall m, m ∈ incoming -> prop m "id" <> JNum 1) ->
  c <> CaptureScreenshot JNull ->
  let out := run c (initial e incoming) in
  out.1 = Stuck /\ closes out.2 = 0 /\ ws_open (session out.2) = true.
Proof.
  intros Hlist Hsel Hurl Hconn Hstr Hc out. subst out.
  destruct c; simpl run;
    unfold captureScreenshot, getPageMetrics, injectCommand, injectAndSubmit,
      focusInput, getChatMessages, getAgentPanelContent, getConversationText,
      getWorkspacePath;
    (erewrite bind_target_opened by eassumption);
    unfold try_finally, mbind, M_bind, get_prop, mret, M_ret;
    try (destruct options; try done; cbn [nullish prop]);
    match goal with
    | |- context [client_send ?m ?p (opened_world _ _ _)] =>
        destruct (client_send_unanswered e (u :: wsUrl) m p incoming Hstr)
          as (w2 & -> & Hcl & Hopen)
    end; done.
Qed.

(** Only events arrive. *)
Lemma unanswered_request_hangs_command_witness :
  let incoming := [obj [("method", str "Page.frameNavigated")];
                   obj [("method", str "Runtime.consoleAPICalled")]] in
  let out := run GetPageMetrics (initial sample_env incoming) in
  out.1 = Stuck /\ closes out.2 = 0 /\ ws_open (session out.2) = true.
Proof.
  intros incoming.
  apply (unanswered_request_hangs_command GetPageMetrics sample_env
           [launchpad_window; editor_window] editor_window 119%N
           (lit "s://localhost:9222/devtools/page/A1") incoming);
    try reflexivity; [|discriminate].
  intros m [->|[->|Hm%elem_of_nil]%elem_of_cons]%elem_of_cons;
    [discriminate|discriminate|done].
Defined.
